(** * Secret expiration controller (internal/controller/secret_controller.go)

    A shallow embedding of the controller of the secret rotation operator
    and the properties its specification states about it.

    Layout of the file:
    - [F64]          : the float64 arithmetic the day counts go through;
    - [GoInt]        : 64-bit integers, [time.Duration] and [time.Time];
    - [F64Reference] : the same float computations through [SpecFloat];
    - [GoStrings]    : byte strings, [strconv.Atoi], [time.ParseDuration],
                       [time.Parse] at the layout "2006-01-02";
    - [corev1], [K8s]: secrets, cache objects and keys;
    - [Workqueue]    : the interface of the rate limited work queue and
                       the queue of the specification;
    - [Controller]   : the controller itself, over a state monad;
    - [Examples]     : sample secrets and worlds;
    - the facts, in the same order.

    The functions of the Go standard library and of client-go that the
    controller calls ([time.Parse], [time.ParseDuration], [strconv.Atoi],
    [Duration.Hours], [Time.Sub], [cache.MetaNamespaceKeyFunc],
    [cache.SplitMetaNamespaceKey]) are written out as they behave on the
    arguments the controller passes. *)

From Stdlib Require Import ZArith QArith Qround Qpower Qabs Lia Lqa SpecFloat.
From Stdlib Require Import String Ascii List.
From stdpp Require Import gmap strings list.

(* ===================================================================== *)
(** * float64 *)
(* ===================================================================== *)

(** Go's [float64] is IEEE 754 binary64.  A finite double is a rational
    number, and each arithmetic operation returns the exact result rounded
    to the nearest double, ties to even.  The model keeps the value as a
    rational and rounds to 53 significant bits.  The exponent range is left
    unbounded: every value the controller computes lies far inside the
    normal range, away from the subnormal and the overflow thresholds.
    [F64Reference] below runs the same computations through the standard
    library's specification of IEEE 754 for comparison. *)
Module F64.
Local Open Scope Q_scope.

Definition f64 := Q.

(** Nearest integer, ties to even. *)
Definition rne (q : Q) : Z :=
  let f := Qfloor q in
  match Qcompare (q - inject_Z f) (1 # 2) with
  | Lt => f
  | Gt => (f + 1)%Z
  | Eq => if Z.even f then f else (f + 1)%Z
  end.

(** [floor (log2 x)] of a positive rational. *)
Definition ilog2 (x : Q) : Z :=
  let l := (Z.log2 (Qnum x) - Z.log2 (Zpos (Qden x)))%Z in
  if Qle_bool (2 ^ l) x then l else (l - 1)%Z.

(** The exponent of the unit in the last place of a double near [x]:
    [2^(52+E) <= |x| < 2^(53+E)]. *)
Definition E (x : Q) : Z := (ilog2 (Qabs x) - 52)%Z.

(** Round to nearest even at precision 53: [rne (x / 2^E) * 2^E]. *)
Definition round (x : Q) : f64 :=
  if Qeq_bool x 0 then 0
  else Qred (inject_Z (rne (x / 2 ^ E x)) * 2 ^ E x).

(** [float64(n)] of an integer. *)
Definition of_int (n : Z) : f64 := round (inject_Z n).

Definition add (x y : f64) : f64 := round (x + y).
Definition mul (x y : f64) : f64 := round (x * y).
Definition div (x y : f64) : f64 := round (x / y).

(** [int(x)] and [uint64(x)] of a float: the fraction is discarded
    (truncation toward zero). *)
Definition to_int (x : f64) : Z :=
  if Qle_bool 0 x then Qfloor x else Qceiling x.

End F64.

(* ===================================================================== *)
(** * Integers, durations and instants *)
(* ===================================================================== *)

Module GoInt.
Local Open Scope Z_scope.

Definition MinInt64 : Z := - 2 ^ 63.
Definition MaxInt64 : Z := 2 ^ 63 - 1.

(** Two's complement wrap-around of [int64] arithmetic. *)
Definition wrap64 (z : Z) : Z := (z + 2 ^ 63) mod 2 ^ 64 - 2 ^ 63.

(** Wrap-around of [uint64] arithmetic. *)
Definition wrapU64 (z : Z) : Z := z mod 2 ^ 64.

(** [time.Duration]: an [int64] count of nanoseconds. *)
Definition Duration := Z.

Definition Nanosecond : Duration := 1.
Definition Microsecond : Duration := 1000 * Nanosecond.
Definition Millisecond : Duration := 1000 * Microsecond.
Definition Second : Duration := 1000 * Millisecond.
Definition Minute : Duration := 60 * Second.
Definition Hour : Duration := 60 * Minute.

(** A day of 24 hours, [24 * time.Hour]. *)
Definition Day : Duration := 24 * Hour.

(** [Duration.Hours]:
<<
    hour := d / Hour
    nsec := d % Hour
    return float64(hour) + float64(nsec)/(60*60*1e9)
>>
    Go's [/] and [%] on integers truncate toward zero. *)
Definition Duration_Hours (d : Duration) : F64.f64 :=
  let hour := Z.quot d Hour in
  let nsec := Z.rem d Hour in
  F64.add (F64.of_int hour) (F64.div (F64.of_int nsec) (inject_Z (60 * 60 * 10 ^ 9))).

(** [time.Time]: an instant, as nanoseconds since the Unix epoch (UTC). *)
Definition Time := Z.

(** [Time.Sub]: the difference of two instants as a [Duration]; when it
    does not fit, the largest or the smallest duration is returned. *)
Definition Time_Sub (t u : Time) : Duration :=
  Z.max MinInt64 (Z.min MaxInt64 (t - u)).

End GoInt.

(** The computations of the controller once more, through [SpecFloat]
    (the specification of IEEE 754 arithmetic in the standard library) at
    precision 53 and maximal exponent 1024, that is binary64.  Used only to
    compare with [F64] on sample inputs. *)
Module F64Reference.
Import GoInt.
Local Open Scope Z_scope.

Definition of_int (n : Z) : spec_float := binary_normalize 53 1024 n 0 false.

Definition to_Q (x : spec_float) : Q :=
  match x with
  | S754_finite s m e => Qred ((if s then - 1 else 1) * inject_Z (Zpos m) * 2 ^ e)%Q
  | _ => 0%Q
  end.

Definition Hours (d : Duration) : spec_float :=
  SFadd 53 1024 (of_int (Z.quot d Hour))
    (SFdiv 53 1024 (of_int (Z.rem d Hour)) (of_int (60 * 60 * 10 ^ 9))).

Definition HoursOver24 (d : Duration) : spec_float :=
  SFdiv 53 1024 (Hours d) (of_int 24).

(** The fraction of a unit in [time.ParseDuration]:
    [float64(f) * (float64(unit) / scale)] with [scale = 10^k]. *)
Definition fraction (f unit : Z) (k : nat) : spec_float :=
  SFmul 53 1024 (of_int f)
    (SFdiv 53 1024 (of_int unit)
       (Nat.iter k (fun x => SFmul 53 1024 x (of_int 10)) (of_int 1))).

Definition fractionF64 (f unit : Z) (k : nat) : F64.f64 :=
  F64.mul (F64.of_int f)
    (F64.div (F64.of_int unit) (Nat.iter k (fun x => F64.mul x 10%Q) 1%Q)).

(** Sample durations: the extremes, every whole day and whole hour within
    120 either way with its two neighbours, and pseudo-random values of
    several magnitudes. *)
Fixpoint lcg (n : nat) (x : Z) : list Z :=
  match n with
  | O => []
  | S n' =>
      let x' := (6364136223846793005 * x + 1442695040888963407) mod 2 ^ 64 in
      (x' - 2 ^ 63) :: lcg n' x'
  end.

Definition sampleDurations : list Duration :=
  MinInt64 :: MaxInt64 ::
  flat_map (fun k => [k * Day - 1; k * Day; k * Day + 1; k * Hour - 1; k * Hour + 1])
           (map (fun n => Z.of_nat n - 120) (seq 0 241)) ++
  lcg 150 42 ++ map (fun z => z / 10 ^ 6) (lcg 100 7) ++ map (fun z => z / 10 ^ 11) (lcg 100 9).

Definition agreeOnDuration (d : Duration) : bool :=
  Qeq_bool (to_Q (Hours d)) (Duration_Hours d) &&
  Qeq_bool (to_Q (HoursOver24 d)) (F64.div (Duration_Hours d) 24%Q).

Definition sampleFractions : list (Z * Z * nat) :=
  flat_map (fun unit =>
    flat_map (fun k => map (fun z => (Z.abs z / 10 ^ (18 - Z.of_nat k), unit, k)) (lcg 6 (unit + Z.of_nat k)))
             (seq 1 18))
    [Nanosecond; Microsecond; Millisecond; Second; Minute; Hour] ++
  [(2 ^ 63, Hour, 19%nat); (9223372036854775807, Hour, 19%nat); (5, Hour, 1%nat)].

Definition agreeOnFraction (x : Z * Z * nat) : bool :=
  let '(f, unit, k) := x in
  Qeq_bool (to_Q (fraction f unit k)) (fractionF64 f unit k).

End F64Reference.

(* ===================================================================== *)
(** * Byte strings and the parsers of the standard library *)
(* ===================================================================== *)

(** A Go string is a sequence of bytes; so is a [string] here. *)
Module GoStrings.
Import GoInt.
Local Open Scope string_scope.
Local Open Scope Z_scope.

Definition isDigit (c : ascii) : bool :=
  (48 <=? Z.of_nat (nat_of_ascii c)) && (Z.of_nat (nat_of_ascii c) <=? 57).

Definition digitVal (c : ascii) : Z := Z.of_nat (nat_of_ascii c) - 48.

(** [s[len(s)-1]], when [s] is not empty. *)
Fixpoint lastByte (s : string) : option ascii :=
  match s with
  | EmptyString => None
  | String c EmptyString => Some c
  | String _ r => lastByte r
  end.

(** [strings.HasSuffix]: [len(s) >= len(suffix) && s[len(s)-len(suffix):] == suffix]. *)
Definition strings_HasSuffix (s suffix : string) : bool :=
  (String.length suffix <=? String.length s)%nat &&
  String.eqb (substring (String.length s - String.length suffix)
                        (String.length suffix) s) suffix.

(** [strings.TrimSuffix]. *)
Definition strings_TrimSuffix (s suffix : string) : string :=
  if strings_HasSuffix s suffix
  then substring 0 (String.length s - String.length suffix) s
  else s.

(** [strings.Split(s, "/")]-style split on a one-byte separator: the
    pieces between the separators, in order (one piece when there is no
    separator). *)
Fixpoint strings_Split (sep : ascii) (s : string) : list string :=
  match s with
  | EmptyString => [EmptyString]
  | String c r =>
      if Ascii.eqb c sep then EmptyString :: strings_Split sep r
      else match strings_Split sep r with
           | h :: t => String c h :: t
           | [] => [String c EmptyString]
           end
  end.

(** ** strconv.Atoi *)

(** The value of a non-empty run of decimal digits. *)
Fixpoint digitsValue (acc : Z) (s : string) : option Z :=
  match s with
  | EmptyString => Some acc
  | String c r => if isDigit c then digitsValue (acc * 10 + digitVal c) r else None
  end.

(** [strconv.Atoi]: an optional sign, then one or more decimal digits and
    nothing else; a value outside [int] (64 bits) is an error. *)
Definition strconv_Atoi (s : string) : option Z :=
  let '(neg, body) :=
    match s with
    | String "-"%char r => (true, r)
    | String "+"%char r => (false, r)
    | _ => (false, s)
    end in
  match body with
  | EmptyString => None
  | _ =>
      match digitsValue 0 body with
      | None => None
      | Some n =>
          let v := if neg then - n else n in
          if (MinInt64 <=? v) && (v <=? MaxInt64) then Some v else None
      end
  end.

(** ** time.ParseDuration *)

(** [leadingInt]: the leading run of digits as a [uint64]; [None] is
    [errLeadingInt] (the value passes 2^63). *)
Fixpoint leadingInt (x : Z) (s : string) : option (Z * string) :=
  match s with
  | EmptyString => Some (x, EmptyString)
  | String c r =>
      if isDigit c then
        if 2 ^ 63 / 10 <? x then None
        else let x' := x * 10 + digitVal c in
             if 2 ^ 63 <? x' then None else leadingInt x' r
      else Some (x, s)
  end.

(** [leadingFraction]: the digits after the point as an integer [x] and a
    scale, the value being [x / scale]; digits that no longer fit are
    dropped. *)
Fixpoint leadingFraction (x : Z) (scale : F64.f64) (overflow : bool) (s : string)
  : Z * F64.f64 * string :=
  match s with
  | EmptyString => (x, scale, EmptyString)
  | String c r =>
      if isDigit c then
        if overflow then leadingFraction x scale true r
        else if (2 ^ 63 - 1) / 10 <? x then leadingFraction x scale true r
        else let y := x * 10 + digitVal c in
             if 2 ^ 63 <? y then leadingFraction x scale true r
             else leadingFraction y (F64.mul scale 10%Q) false r
      else (x, scale, s)
  end.

(** The unit: the longest prefix with no digit and no point. *)
Fixpoint unitSpan (s : string) : string * string :=
  match s with
  | EmptyString => (EmptyString, EmptyString)
  | String c r =>
      if Ascii.eqb c "."%char || isDigit c then (EmptyString, s)
      else let '(u, rest) := unitSpan r in (String c u, rest)
  end.

(** The micro sign U+00B5 and the Greek mu U+03BC, in UTF-8. *)
Definition micro_us : string :=
  String (ascii_of_nat 194) (String (ascii_of_nat 181) "s").
Definition mu_us : string :=
  String (ascii_of_nat 206) (String (ascii_of_nat 188) "s").

(** [unitMap]. *)
Definition unitMap (u : string) : option Z :=
  if String.eqb u "ns" then Some Nanosecond
  else if String.eqb u "us" then Some Microsecond
  else if String.eqb u micro_us then Some Microsecond
  else if String.eqb u mu_us then Some Microsecond
  else if String.eqb u "ms" then Some Millisecond
  else if String.eqb u "s" then Some Second
  else if String.eqb u "m" then Some Minute
  else if String.eqb u "h" then Some Hour
  else None.

(** One turn of the loop of [time.ParseDuration]: a number, an optional
    fraction and a unit (digits, then a point and digits, then letters);
    the result is the value in nanoseconds ([uint64]) and the rest of the
    string. *)
Definition parseTerm (s : string) : option (Z * string) :=
  match s with
  | EmptyString => None
  | String c _ =>
      if negb (Ascii.eqb c "."%char || isDigit c) then None
      else
        match leadingInt 0 s with
        | None => None
        | Some (v, s1) =>
            let pre := negb (String.length s =? String.length s1)%nat in
            let '(f, scale, s2, post) :=
              match s1 with
              | String "."%char r =>
                  let '(f, scale, s2) := leadingFraction 0 1%Q false r in
                  (f, scale, s2, negb (String.length r =? String.length s2)%nat)
              | _ => (0, 1%Q, s1, false)
              end in
            if negb pre && negb post then None
            else
              let '(u, s3) := unitSpan s2 in
              if (String.length u =? 0)%nat then None
              else
                match unitMap u with
                | None => None
                | Some unit =>
                    if 2 ^ 63 / unit <? v then None
                    else
                      let v1 := v * unit in
                      if 0 <? f then
                        let v2 := wrapU64 (v1 + F64.to_int
                                     (F64.mul (F64.of_int f)
                                        (F64.div (F64.of_int unit) scale))) in
                        if 2 ^ 63 <? v2 then None else Some (v2, s3)
                      else Some (v1, s3)
                end
        end
  end.

(** The loop [for s != ""], on the number of bytes left: every turn
    consumes at least the unit. *)
Fixpoint parseTerms (fuel : nat) (d : Z) (s : string) : option Z :=
  match s with
  | EmptyString => Some d
  | _ =>
      match fuel with
      | O => None
      | S fuel' =>
          match parseTerm s with
          | None => None
          | Some (v, rest) =>
              let d' := wrapU64 (d + v) in
              if 2 ^ 63 <? d' then None else parseTerms fuel' d' rest
          end
      end
  end.

(** [time.ParseDuration]: an optional sign, then one or more terms, or
    the single digit 0. *)
Definition time_ParseDuration (s : string) : option Duration :=
  let '(neg, s1) :=
    match s with
    | String "-"%char r => (true, r)
    | String "+"%char r => (false, r)
    | _ => (false, s)
    end in
  if String.eqb s1 "0" then Some 0
  else if String.eqb s1 "" then None
  else
    match parseTerms (String.length s1) 0 s1 with
    | None => None
    | Some d =>
        if neg then Some (wrap64 (- wrap64 d))
        else if MaxInt64 <? d then None else Some d
    end.

(** ** time.Parse at the layout "2006-01-02" *)

(** [getnum(s, fixed = true)]: exactly two digits. *)
Definition getnum2 (s : string) : option (Z * string) :=
  match s with
  | String a (String b r) =>
      if isDigit a && isDigit b then Some (digitVal a * 10 + digitVal b, r) else None
  | _ => None
  end.

(** [stdLongYear]: four digits. *)
Definition getyear (s : string) : option (Z * string) :=
  match s with
  | String a (String b (String c (String d r))) =>
      if isDigit a && isDigit b && isDigit c && isDigit d
      then Some (((digitVal a * 10 + digitVal b) * 10 + digitVal c) * 10 + digitVal d, r)
      else None
  | _ => None
  end.

(** The literal ["-"] of the layout. *)
Definition skipDash (s : string) : option string :=
  match s with
  | String c r => if Ascii.eqb c "-" then Some r else None
  | EmptyString => None
  end.

Definition isLeap (year : Z) : bool :=
  (year mod 4 =? 0) && (negb (year mod 100 =? 0) || (year mod 400 =? 0)).

Definition daysIn (month year : Z) : Z :=
  if month =? 2 then (if isLeap year then 29 else 28)
  else if (month =? 4) || (month =? 6) || (month =? 9) || (month =? 11) then 30
  else 31.

(** Days from 1970-01-01 to the given day of the proleptic Gregorian
    calendar. *)
Definition daysSinceEpoch (year month day : Z) : Z :=
  let y := if month <=? 2 then year - 1 else year in
  let era := y / 400 in
  let yoe := y - era * 400 in
  let mp := if month <=? 2 then month + 9 else month - 3 in
  let doy := (153 * mp + 2) / 5 + day - 1 in
  let doe := yoe * 365 + yoe / 4 - yoe / 100 + doy in
  era * 146097 + doe - 719468.

(** [time.Parse("2006-01-02", value)]: four digits, a dash, two digits, a
    dash, two digits and nothing else; the month is in 1..12 and the day
    exists in that month.  The result is midnight UTC of that day. *)
Definition time_Parse_DateOnly (value : string) : option Time :=
  match getyear value with
  | None => None
  | Some (year, v1) =>
  match skipDash v1 with
  | None => None
  | Some v2 =>
  match getnum2 v2 with
  | None => None
  | Some (month, v3) =>
  if (month <=? 0) || (12 <? month) then None else
  match skipDash v3 with
  | None => None
  | Some v4 =>
  match getnum2 v4 with
  | None => None
  | Some (day, v5) =>
  if negb (String.length v5 =? 0)%nat then None
  else if (day <? 1) || (daysIn month year <? day) then None
  else Some (daysSinceEpoch year month day * 24 * Hour)
  end end end end end.

(** In the words of the specification: the literal YYYY-MM-DD format.
    Byte for byte: four digits, a dash, two digits, a dash, two digits. *)
Definition isDateShaped (value : string) : bool :=
  match value with
  | String y1 (String y2 (String y3 (String y4 (String s1
      (String m1 (String m2 (String s2 (String d1 (String d2 EmptyString))))))))) =>
      isDigit y1 && isDigit y2 && isDigit y3 && isDigit y4 && Ascii.eqb s1 "-" &&
      isDigit m1 && isDigit m2 && Ascii.eqb s2 "-" && isDigit d1 && isDigit d2
  | _ => false
  end.

(** ** Numerals and dates, written out *)

(** Whether the byte [c] occurs in [s] ([strings.IndexByte(s, c) >= 0]). *)
Fixpoint hasByte (c : ascii) (s : string) : bool :=
  match s with
  | EmptyString => false
  | String a r => Ascii.eqb a c || hasByte c r
  end.

(** The decimal digit of [n mod 10]. *)
Definition digitChar (n : Z) : ascii := ascii_of_nat (Z.to_nat (48 + n mod 10)).

(** The decimal digits of a natural number in front of [acc], most
    significant first; [fuel] bounds the number of digits. *)
Fixpoint digitsOf (fuel : nat) (n : Z) (acc : string) : string :=
  match fuel with
  | O => acc
  | S fuel' =>
      let acc' := String (digitChar n) acc in
      if n <? 10 then acc' else digitsOf fuel' (n / 10) acc'
  end.

(** [strconv.Itoa] on an [int] of 64 bits (at most 20 digits): the decimal
    numeral, with a minus sign when negative. *)
Definition strconv_Itoa (n : Z) : string :=
  if n <? 0 then String "-" (digitsOf 20 (- n) "") else digitsOf 20 n "".

(** A calendar date at the layout "2006-01-02": the year on four digits,
    the month and the day on two. *)
Definition dateString (year month day : Z) : string :=
  String (digitChar (year / 1000)) (String (digitChar (year / 100))
  (String (digitChar (year / 10)) (String (digitChar year)
  (String "-" (String (digitChar (month / 10)) (String (digitChar month)
  (String "-" (String (digitChar (day / 10)) (String (digitChar day) ""))))))))).

(** [strings.Repeat] of a one-byte string. *)
Fixpoint strings_Repeat (c : ascii) (count : nat) : string :=
  match count with
  | O => EmptyString
  | S n => String c (strings_Repeat c n)
  end.

End GoStrings.

(* ===================================================================== *)
(** * Secrets, cache objects and keys *)
(* ===================================================================== *)

(** [corev1.Secret], with its object metadata flattened. *)
Module corev1.

Record Secret := mkSecret {
  Name : string;
  Namespace : string;
  ResourceVersion : string;
  Annotations : gmap string string;
  Labels : gmap string string;
  Data : gmap string string;
  StringData : gmap string string;
  SecretType : string;
  Immutable : option bool
}.

Definition EventTypeNormal : string := "Normal".
Definition EventTypeWarning : string := "Warning".

End corev1.

Module K8s.
Local Open Scope string_scope.

(** What an [interface{}] handed to the controller can hold: a
    [*corev1.Secret], a [cache.DeletedFinalStateUnknown] tombstone around
    another value, a [cache.ExplicitKey], or a value of some other type,
    with its namespace and name when it carries object metadata. *)
Inductive Object :=
| ObjSecret (secret : corev1.Secret)
| ObjTombstone (key : string) (obj : Object)
| ObjExplicitKey (key : string)
| ObjOther (typeName : string) (meta : option (string * string)).

(** The [%T] of a value. *)
Definition typeOf (obj : Object) : string :=
  match obj with
  | ObjSecret _ => "*v1.Secret"
  | ObjTombstone _ _ => "cache.DeletedFinalStateUnknown"
  | ObjExplicitKey _ => "cache.ExplicitKey"
  | ObjOther t _ => t
  end.

Inductive error :=
| ErrNoObjectMeta (typeName : string)
| ErrStore (msg : string)
| ErrFetch (key : string) (cause : error)
| ErrUnexpectedType (typeName : string).

(** [ObjectName.String]: [namespace/name], or [name] alone when the
    namespace is empty. *)
Definition ObjectName_String (namespace name : string) : string :=
  if (0 <? String.length namespace)%nat then namespace +:+ "/" +:+ name else name.

(** [cache.MetaNamespaceKeyFunc]: the key of an explicit key is itself, the
    key of an object with metadata is its [namespace/name]; a value without
    metadata (a tombstone for one) has no key. *)
Definition MetaNamespaceKeyFunc (obj : Object) : string + error :=
  match obj with
  | ObjExplicitKey key => inl key
  | ObjSecret s => inl (ObjectName_String (corev1.Namespace s) (corev1.Name s))
  | ObjOther _ (Some (namespace, name)) => inl (ObjectName_String namespace name)
  | _ => inr (ErrNoObjectMeta (typeOf obj))
  end.

(** [cache.SplitMetaNamespaceKey]: one part is a name, two parts are a
    namespace and a name, anything else is an error. *)
Definition SplitMetaNamespaceKey (key : string) : option (string * string) :=
  match GoStrings.strings_Split "/" key with
  | [name] => Some ("", name)
  | [namespace; name] => Some (namespace, name)
  | _ => None
  end.

(** The answer of [Store.GetByKey]: [(item, exists, err)]. *)
Inductive GetByKeyResult :=
| StoreError (err : error)
| StoreMissing
| StoreFound (item : Object).

End K8s.

(* ===================================================================== *)
(** * The work queue *)
(* ===================================================================== *)

Module Workqueue.
Import GoInt.

(** What [Get] can do on a queue state: hand out a key, report the
    shutdown, or keep the caller waiting (no transition). *)
Inductive GetResult (Q : Type) :=
| GotItem (key : string) (q : Q)
| GotShutdown (q : Q)
| GetBlocks.
Arguments GotItem {Q} key q.
Arguments GotShutdown {Q} q.
Arguments GetBlocks {Q}.

(** The part of [workqueue.TypedRateLimitingInterface[string]] the
    controller calls.  The controller is written against this interface;
    its implementation belongs to client-go. *)
Class TypedRateLimitingInterface (Q : Type) := {
  Add : string -> Q -> Q;
  Get : Q -> GetResult Q;
  Done : string -> Q -> Q;
  AddRateLimited : string -> Q -> Q;
  Forget : string -> Q -> Q
}.

(** Modelled from the spec: the deduplicating rate limited work queue of
    section 4.4, whose implementation (client-go's workqueue package) is
    not part of the sources.  The state is the one section 5 names: the
    pending keys in arrival order, the in-flight set, the dirty set, the
    failure counters and the delay timers, and the draining flag. *)
Record SpecQueue := mkSpecQueue {
  pending : list string;
  inflight : gset string;
  dirty : gset string;
  failures : gmap string nat;
  timers : list (string * Duration);
  shuttingDown : bool
}.


(** Modelled from the spec: [add(key)] is a no-op while [key] is queued
    and not yet dequeued; while [key] is being processed it marks the key
    dirty; otherwise it queues the key.  A queue that is shutting down
    accepts nothing. *)
Definition spec_add (key : string) (q : SpecQueue) : SpecQueue :=
  if shuttingDown q then q
  else if bool_decide (key ∈ pending q) then q
  else if bool_decide (key ∈ inflight q) then
    mkSpecQueue (pending q) (inflight q) ({[key]} ∪ dirty q)
                (failures q) (timers q) (shuttingDown q)
  else
    mkSpecQueue (pending q ++ [key]) (inflight q) (dirty q)
                (failures q) (timers q) (shuttingDown q).

(** Modelled from the spec: [get()] hands out the oldest pending key and
    puts it in flight; on an empty queue it reports the shutdown once the
    queue is draining, and blocks otherwise. *)
Definition spec_get (q : SpecQueue) : GetResult SpecQueue :=
  match pending q with
  | key :: rest =>
      GotItem key (mkSpecQueue rest ({[key]} ∪ inflight q) (dirty q)
                               (failures q) (timers q) (shuttingDown q))
  | [] => if shuttingDown q then GotShutdown q else GetBlocks
  end.

(** Modelled from the spec: [done(key)] ends the processing of [key]; a
    key marked dirty meanwhile is queued again at that moment. *)
Definition spec_done (key : string) (q : SpecQueue) : SpecQueue :=
  if bool_decide (key ∈ dirty q) then
    mkSpecQueue (pending q ++ [key]) (inflight q ∖ {[key]}) (dirty q ∖ {[key]})
                (failures q) (timers q) (shuttingDown q)
  else
    mkSpecQueue (pending q) (inflight q ∖ {[key]}) (dirty q)
                (failures q) (timers q) (shuttingDown q).

(** Modelled from the spec: the delay grows exponentially with the number
    of failures recorded for the key, up to a cap (client-go's default
    limiter: 5ms doubled per failure, at most 1000s). *)
Definition backoff (n : nat) : Duration :=
  Z.min (5 * Millisecond * 2 ^ Z.of_nat n) (1000 * Second).

(** Modelled from the spec: [addRateLimited(key)] records one more failure
    and arms a timer that adds the key after the delay. *)
Definition spec_addRateLimited (key : string) (q : SpecQueue) : SpecQueue :=
  let n := default 0%nat (failures q !! key) in
  mkSpecQueue (pending q) (inflight q) (dirty q)
              (<[key := S n]> (failures q)) (timers q ++ [(key, backoff n)])
              (shuttingDown q).

(** Modelled from the spec: [forget(key)] resets the failure counter. *)
Definition spec_forget (key : string) (q : SpecQueue) : SpecQueue :=
  mkSpecQueue (pending q) (inflight q) (dirty q)
              (delete key (failures q)) (timers q) (shuttingDown q).

(** Modelled from the spec: [shutdown()] marks the queue as draining. *)
Definition spec_shutdown (q : SpecQueue) : SpecQueue :=
  mkSpecQueue (pending q) (inflight q) (dirty q) (failures q) (timers q) true.


(** The queue of the specification behind the interface of the controller. *)
#[global] Instance SpecQueue_interface : TypedRateLimitingInterface SpecQueue := {
  Add := spec_add;
  Get := spec_get;
  Done := spec_done;
  AddRateLimited := spec_addRateLimited;
  Forget := spec_forget
}.



(** The invariant of the queue: no key is pending twice, no pending key
    is in flight, and only keys in flight are dirty. *)
Definition spec_wf (q : SpecQueue) : Prop :=
  NoDup (pending q) /\
  (forall k, k ∈ pending q -> k ∉ inflight q) /\
  dirty q ⊆ inflight q.




End Workqueue.

(* ===================================================================== *)
(** * The controller *)
(* ===================================================================== *)

Module Controller.
Import GoInt GoStrings K8s Workqueue.
Local Open Scope string_scope.
Local Open Scope Z_scope.

Definition AnnotationExpiresAt : string := "secret-operator.example.com/expires-at".
Definition AnnotationWarnBefore : string := "secret-operator.example.com/warn-before".

Record SecretInfo := mkSecretInfo {
  Name : string;
  Namespace : string;
  ExpiresAt : Time;
  WarnBefore : Duration;
  DaysUntilExp : Z
}.

(** The zero [time.Time]: January 1 of year 1, 00:00 UTC. *)
Definition Time_zero : Time := - 62135596800 * Second.

(** [SecretInfo{}]. *)
Definition SecretInfo_zero : SecretInfo := mkSecretInfo "" "" Time_zero 0 0.

(** [parseDuration] extends [time.ParseDuration] with support for "d" (days):
<<
    if len(s) > 1 && s[len(s)-1] == 'd' {
        daysStr := strings.TrimSuffix(s, "d")
        days, err := strconv.Atoi(daysStr)
        if err != nil { return 0, fmt.Errorf("invalid days format: %w", err) }
        return time.Duration(days) * 24 * time.Hour, nil
    }
    return time.ParseDuration(s)
>>
    [None] is a non-nil error.  The product is an [int64] product. *)
Definition parseDuration (s : string) : option Duration :=
  if (1 <? String.length s)%nat &&
     bool_decide (String.get (String.length s - 1) s = Some "d"%char)
  then
    let daysStr := strings_TrimSuffix s "d" in
    match strconv_Atoi daysStr with
    | None => None
    | Some days => Some (wrap64 (wrap64 (days * 24) * Hour))
    end
  else time_ParseDuration s.

(** In the words of the specification: a secret is tracked when it
    carries a parsable expiration annotation.  (This is the second result
    of [parseSecretInfo], see [parseSecretInfo_result].) *)
Definition tracked (secret : corev1.Secret) : bool :=
  match corev1.Annotations secret !! AnnotationExpiresAt with
  | Some expiresAt =>
      match time_Parse_DateOnly expiresAt with
      | Some _ => true
      | None => false
      end
  | None => false
  end.

(** ** Effects *)

(** An argument of a format string. *)
Inductive Arg :=
| ArgStr (s : string)
| ArgInt (n : Z)
| ArgDate (t : Time)          (* [t.Format("2006-01-02")] *)
| ArgErr (e : error).

Inductive Severity := LvlInfo | LvlWarning | LvlError | LvlV2.

(** A call of klog: severity, format string, arguments. *)
Record LogLine := mkLogLine {
  severity : Severity;
  logFormat : string;
  logArgs : list Arg
}.

(** A call of [recorder.Eventf(object, eventtype, reason, format, args...)]. *)
Record Event := mkEvent {
  regarding : corev1.Secret;
  eventType : string;
  reason : string;
  messageFmt : string;
  messageArgs : list Arg
}.

(** The calls the controller makes on its work queue. *)
Inductive QueueCall :=
| CallAdd (key : string)
| CallGet
| CallDone (key : string)
| CallAddRateLimited (key : string)
| CallForget (key : string).

Section WithQueue.
Context {Q : Type} `{!TypedRateLimitingInterface Q}.

(** What a handler or a worker pass can see and change: the clock (the
    successive answers of [time.Now]), the store of the informer, the work
    queue with the journal of the calls made on it, the log and the events
    handed to the recorder. *)
Record World := mkWorld {
  clock : nat -> Time;
  ticks : nat;
  store : string -> GetByKeyResult;
  workqueue : Q;
  qcalls : list QueueCall;
  klog : list LogLine;
  events : list Event
}.

(** Code with effects: a function of the world. *)
Definition M (A : Type) : Type := World -> A * World.

Definition ret {A} (a : A) : M A := fun w => (a, w).

Definition bind {A B} (m : M A) (k : A -> M B) : M B :=
  fun w => let '(a, w') := m w in k a w'.

Definition time_Now : M Time := fun w =>
  (clock w (ticks w),
   mkWorld (clock w) (S (ticks w)) (store w) (workqueue w) (qcalls w) (klog w) (events w)).

Definition store_GetByKey (key : string) : M GetByKeyResult := fun w =>
  (store w key, w).

Definition klog_emit (l : LogLine) : M unit := fun w =>
  (tt, mkWorld (clock w) (ticks w) (store w) (workqueue w) (qcalls w)
               (klog w ++ [l]) (events w)).

Definition klog_Infof (fmt : string) (args : list Arg) : M unit :=
  klog_emit (mkLogLine LvlInfo fmt args).
Definition klog_Warningf (fmt : string) (args : list Arg) : M unit :=
  klog_emit (mkLogLine LvlWarning fmt args).
Definition klog_Errorf (fmt : string) (args : list Arg) : M unit :=
  klog_emit (mkLogLine LvlError fmt args).
Definition klog_V2_Infof (fmt : string) (args : list Arg) : M unit :=
  klog_emit (mkLogLine LvlV2 fmt args).

Definition recorder_Eventf (object : corev1.Secret) (eventtype reason fmt : string)
    (args : list Arg) : M unit := fun w =>
  (tt, mkWorld (clock w) (ticks w) (store w) (workqueue w) (qcalls w) (klog w)
               (events w ++ [mkEvent object eventtype reason fmt args])).

(** A call on the work queue: the queue moves, the journal grows. *)
Definition queue_call (c : QueueCall) (f : Q -> Q) : M unit := fun w =>
  (tt, mkWorld (clock w) (ticks w) (store w) (f (workqueue w)) (qcalls w ++ [c])
               (klog w) (events w)).

Definition workqueue_Add (key : string) : M unit := queue_call (CallAdd key) (Add key).
Definition workqueue_Done (key : string) : M unit := queue_call (CallDone key) (Done key).
Definition workqueue_Forget (key : string) : M unit :=
  queue_call (CallForget key) (Forget key).
Definition workqueue_AddRateLimited (key : string) : M unit :=
  queue_call (CallAddRateLimited key) (AddRateLimited key).

End WithQueue.

Arguments World Q : clear implicits.
Arguments M Q A : clear implicits.

Notation "x <- m1 ;; m2" := (bind m1 (fun x => m2))
  (at level 100, m1 at next level, right associativity).
Notation "m1 ;;; m2" := (bind m1 (fun _ => m2))
  (at level 100, right associativity).

(** How far a worker got: [runWorker] returned (the queue reported its
    shutdown), the worker is waiting inside [Get], or it is still looping. *)
Inductive WorkerExit := WorkerReturned | WorkerWaiting | WorkerLooping.

(** What a worker pass did with its key. *)
Inductive Pass :=
| PassForget (key : string)
| PassRetry (key : string).

(** The calls of one pass on the queue, in order. *)
Definition passCalls (p : Pass) : list QueueCall :=
  match p with
  | PassForget key => [CallGet; CallForget key; CallDone key]
  | PassRetry key => [CallGet; CallAddRateLimited key; CallDone key]
  end.

Section Handlers.
Context {Q : Type} `{!TypedRateLimitingInterface Q}.

(** ** Helpers *)

(** [parseSecretInfo] extracts expiration information from a Secret's
    annotations. *)
Definition parseSecretInfo (secret : corev1.Secret) : M Q (SecretInfo * bool) :=
  match corev1.Annotations secret !! AnnotationExpiresAt with
  | None => ret (SecretInfo_zero, false)
  | Some expiresAt =>
      match time_Parse_DateOnly expiresAt with
      | None => ret (SecretInfo_zero, false)
      | Some expTime =>
          let warnBefore :=
            match corev1.Annotations secret !! AnnotationWarnBefore with
            | Some warnStr =>
                match parseDuration warnStr with
                | Some parsed => parsed
                | None => 7 * 24 * Hour
                end
            | None => 7 * 24 * Hour
            end in
          now <- time_Now ;;
          let daysUntil :=
            F64.to_int (F64.div (Duration_Hours (Time_Sub expTime now)) 24%Q) in
          ret (mkSecretInfo (corev1.Name secret) (corev1.Namespace secret)
                            expTime warnBefore daysUntil, true)
      end
  end.

(** [emitExpirationEvent] creates a Kubernetes Event on the Secret based on
    its expiration status. *)
Definition emitExpirationEvent (secret : corev1.Secret) (info : SecretInfo) : M Q unit :=
  let warnThresholdDays := F64.to_int (F64.div (Duration_Hours (WarnBefore info)) 24%Q) in
  if DaysUntilExp info <? 0 then
    klog_Warningf "  EXPIRED %d days ago: %s/%s"
      [ArgInt (wrap64 (- DaysUntilExp info)); ArgStr (Namespace info); ArgStr (Name info)] ;;;
    recorder_Eventf secret corev1.EventTypeWarning "SecretExpired"
      "Secret expired %d days ago (expired on %s)"
      [ArgInt (wrap64 (- DaysUntilExp info)); ArgDate (ExpiresAt info)]
  else if DaysUntilExp info <=? warnThresholdDays then
    klog_Warningf "  EXPIRING SOON in %d days: %s/%s"
      [ArgInt (DaysUntilExp info); ArgStr (Namespace info); ArgStr (Name info)] ;;;
    recorder_Eventf secret corev1.EventTypeWarning "SecretExpiringSoon"
      "Secret expires in %d days (on %s). Warning threshold: %d days"
      [ArgInt (DaysUntilExp info); ArgDate (ExpiresAt info); ArgInt warnThresholdDays]
  else
    klog_Infof "  OK: %d days remaining for %s/%s"
      [ArgInt (DaysUntilExp info); ArgStr (Namespace info); ArgStr (Name info)] ;;;
    recorder_Eventf secret corev1.EventTypeNormal "SecretValid"
      "Secret is valid. Expires in %d days (on %s)"
      [ArgInt (DaysUntilExp info); ArgDate (ExpiresAt info)].

(** ** The reconciler *)

(** [reconcile] fetches a Secret from the cache, checks its expiration, and
    emits Kubernetes Events.  The result is the error, [None] for [nil]. *)
Definition reconcile (key : string) : M Q (option error) :=
  match SplitMetaNamespaceKey key with
  | None =>
      klog_Errorf "Invalid key format: %s" [ArgStr key] ;;;
      ret None
  | Some (namespace, name) =>
      r <- store_GetByKey key ;;
      match r with
      | StoreError err => ret (Some (ErrFetch key err))
      | StoreMissing =>
          klog_Infof "Secret %s no longer exists" [ArgStr key] ;;;
          ret None
      | StoreFound (ObjSecret secret) =>
          r <- parseSecretInfo secret ;;
          let '(info, hasExpiration) := r in
          if negb hasExpiration then ret None
          else
            klog_Infof "Reconciling %s/%s | expires: %s | days: %d"
              [ArgStr namespace; ArgStr name; ArgDate (ExpiresAt info);
               ArgInt (DaysUntilExp info)] ;;;
            emitExpirationEvent secret info ;;;
            ret None
      | StoreFound obj => ret (Some (ErrUnexpectedType (typeOf obj)))
      end
  end.

(** [processNextWorkItem] pulls one key from the queue and reconciles it.
    Returns false on shutdown.  [None] is a worker still waiting inside
    [Get].  The deferred [Done] runs last on both paths. *)
Definition processNextWorkItem : M Q (option bool) := fun w =>
  match Get (workqueue w) with
  | GetBlocks => (None, w)
  | GotShutdown q' =>
      (Some false,
       mkWorld (clock w) (ticks w) (store w) q' (qcalls w ++ [CallGet]) (klog w) (events w))
  | GotItem key q' =>
      (err <- reconcile key ;;
       match err with
       | Some e =>
           workqueue_AddRateLimited key ;;;
           klog_Errorf "Error reconciling %s (will retry): %v" [ArgStr key; ArgErr e] ;;;
           workqueue_Done key ;;;
           ret (Some true)
       | None =>
           workqueue_Forget key ;;;
           workqueue_Done key ;;;
           ret (Some true)
       end)
      (mkWorld (clock w) (ticks w) (store w) q' (qcalls w ++ [CallGet]) (klog w) (events w))
  end.

(** [runWorker] loops, processing items from the workqueue until shutdown:
<<
    for c.processNextWorkItem() {
    }
>>
    [fuel] bounds the number of passes looked at. *)
Fixpoint runWorker (fuel : nat) : M Q WorkerExit :=
  match fuel with
  | O => ret WorkerLooping
  | S fuel' =>
      r <- processNextWorkItem ;;
      match r with
      | Some true => runWorker fuel'
      | Some false => ret WorkerReturned
      | None => ret WorkerWaiting
      end
  end.

(** ** The event handlers *)

(** [handleAdd] enqueues newly created Secrets that have expiration
    annotations. *)
Definition handleAdd (obj : Object) : M Q unit :=
  match MetaNamespaceKeyFunc obj with
  | inr err => klog_Errorf "Error getting key for added object: %v" [ArgErr err]
  | inl key =>
      match obj with
      | ObjSecret secret =>
          r <- parseSecretInfo secret ;;
          if negb (snd r) then ret tt
          else
            klog_V2_Infof "ADD event: %s" [ArgStr key] ;;;
            workqueue_Add key
      | _ => ret tt
      end
  end.

(** [handleUpdate] enqueues Secrets when expiration annotations are added,
    changed, or removed. *)
Definition handleUpdate (oldObj newObj : Object) : M Q unit :=
  match oldObj with
  | ObjSecret oldSecret =>
      match newObj with
      | ObjSecret newSecret =>
          (* Filter out resync events *)
          if String.eqb (corev1.ResourceVersion oldSecret) (corev1.ResourceVersion newSecret)
          then ret tt
          else
            match MetaNamespaceKeyFunc newObj with
            | inr err =>
                klog_Errorf "Error getting key for updated object: %v" [ArgErr err]
            | inl key =>
                ro <- parseSecretInfo oldSecret ;;
                rn <- parseSecretInfo newSecret ;;
                let oldHasExp := snd ro in
                let newHasExp := snd rn in
                if oldHasExp || newHasExp then
                  klog_V2_Infof "UPDATE event: %s" [ArgStr key] ;;;
                  workqueue_Add key
                else ret tt
            end
      | _ => ret tt
      end
  | _ => ret tt
  end.

(** [handleDelete] logs when a tracked Secret is removed from the cluster. *)
Definition handleDelete (obj : Object) : M Q unit :=
  let unwrapped : M Q (option corev1.Secret) :=
    match obj with
    | ObjSecret secret => ret (Some secret)
    | ObjTombstone _ (ObjSecret secret) => ret (Some secret)
    | ObjTombstone _ inner =>
        klog_Errorf "Tombstone contained unexpected type: %T" [ArgStr (typeOf inner)] ;;;
        ret None
    | _ =>
        klog_Errorf "Unexpected type in handleDelete: %T" [ArgStr (typeOf obj)] ;;;
        ret None
    end in
  s <- unwrapped ;;
  match s with
  | None => ret tt
  | Some secret =>
      r <- parseSecretInfo secret ;;
      if negb (snd r) then ret tt
      else
        match MetaNamespaceKeyFunc (ObjSecret secret) with
        | inr err => klog_Errorf "Error getting key for deleted object: %v" [ArgErr err]
        | inl key => klog_Infof "DELETE: %s (was tracking expiration)" [ArgStr key]
        end
  end.

End Handlers.

End Controller.

(* ===================================================================== *)
(** * The earlier programs: the one-shot analysis and the watcher *)
(* ===================================================================== *)

(** Before the work queue and the event recorder, the operator printed
    its findings on the standard output: a one-shot analysis of all
    secrets (cmd/secret-operator/main.go, phase 2) and a watcher whose
    handlers analyse the secret themselves.  Format strings are kept as
    the source writes them. *)
Module Console.
Import GoInt.
Local Open Scope string_scope.

Inductive error :=
| ErrParseTime (value : string)
| ErrInvalidDays (daysStr : string)
| ErrParseDuration (s : string)
| ErrApi (msg : string)
| ErrListSecrets (cause : error).

(** An argument of a format string. *)
Inductive Arg :=
| ArgStr (s : string)
| ArgInt (n : Z)
| ArgDate (t : Time)            (* [t.Format("2006-01-02")] *)
| ArgDateWeekday (t : Time)     (* [t.Format("2006-01-02 (Monday)")] *)
| ArgType (typeName : string)   (* the [%T] of a value *)
| ArgErr (e : error).

(** A call of [fmt.Println] or of [fmt.Printf]. *)
Inductive Out :=
| Println (line : string)
| Printf (format : string) (args : list Arg).

(** The clock (the successive answers of [time.Now]) and what was printed. *)
Record Console := mkConsole {
  clock : nat -> Time;
  ticks : nat;
  stdout : list Out
}.

Definition C (A : Type) : Type := Console -> A * Console.

Definition ret {A} (a : A) : C A := fun c => (a, c).

Definition bind {A B} (m : C A) (k : A -> C B) : C B :=
  fun c => let '(a, c') := m c in k a c'.

Definition time_Now : C Time := fun c =>
  (clock c (ticks c), mkConsole (clock c) (S (ticks c)) (stdout c)).

Definition fmt_Println (line : string) : C unit := fun c =>
  (tt, mkConsole (clock c) (ticks c) (stdout c ++ [Println line])).

Definition fmt_Printf (format : string) (args : list Arg) : C unit := fun c =>
  (tt, mkConsole (clock c) (ticks c) (stdout c ++ [Printf format args])).

Declare Scope console_scope.
Notation "x <- m1 ;; m2" := (bind m1 (fun x => m2))
  (at level 100, m1 at next level, right associativity) : console_scope.
Notation "m1 ;;; m2" := (bind m1 (fun _ => m2))
  (at level 100, right associativity) : console_scope.

End Console.

(** The one-shot analysis (package main, phase 2). *)
Module Main.
Import GoInt GoStrings Console.
Local Open Scope string_scope.
Local Open Scope Z_scope.
Local Open Scope console_scope.

Definition AnnotationExpiresAt : string := "secret-operator.example.com/expires-at".
Definition AnnotationWarnBefore : string := "secret-operator.example.com/warn-before".

(** [parseDuration], with its error. *)
Definition parseDuration (s : string) : Duration + error :=
  if (1 <? String.length s)%nat &&
     bool_decide (String.get (String.length s - 1) s = Some "d"%char)
  then
    let daysStr := strings_TrimSuffix s "d" in
    match strconv_Atoi daysStr with
    | None => inr (ErrInvalidDays daysStr)
    | Some days => inl (wrap64 (wrap64 (days * 24) * Hour))
    end
  else
    match time_ParseDuration s with
    | Some d => inl d
    | None => inr (ErrParseDuration s)
    end.

(** [parseSecretInfo]: as in the controller, and a warning is printed for
    an annotation that does not parse. *)
Definition parseSecretInfo (secret : corev1.Secret) : C (Controller.SecretInfo * bool) :=
  match corev1.Annotations secret !! AnnotationExpiresAt with
  | None => ret (Controller.SecretInfo_zero, false)
  | Some expiresAt =>
      match time_Parse_DateOnly expiresAt with
      | None =>
          fmt_Printf "Warning: Secret %s/%s has invalid expires-at format: %v\n"
            [ArgStr (corev1.Namespace secret); ArgStr (corev1.Name secret);
             ArgErr (ErrParseTime expiresAt)] ;;;
          ret (Controller.SecretInfo_zero, false)
      | Some expTime =>
          warnBefore <-
            match corev1.Annotations secret !! AnnotationWarnBefore with
            | Some warnStr =>
                match parseDuration warnStr with
                | inl parsed => ret parsed
                | inr err =>
                    fmt_Printf
                      "Warning: Secret %s/%s has invalid warn-before format: %v (using default 7d)\n"
                      [ArgStr (corev1.Namespace secret); ArgStr (corev1.Name secret);
                       ArgErr err] ;;;
                    ret (7 * 24 * Hour)
                end
            | None => ret (7 * 24 * Hour)
            end ;;
          now <- time_Now ;;
          let daysUntil :=
            F64.to_int (F64.div (Duration_Hours (Time_Sub expTime now)) 24%Q) in
          ret (Controller.mkSecretInfo (corev1.Name secret) (corev1.Namespace secret)
                 expTime warnBefore daysUntil, true)
      end
  end.

(** [displaySecretInfo]. *)
Definition displaySecretInfo (info : Controller.SecretInfo) : C unit :=
  fmt_Printf "\nSecret: %s/%s\n"
    [ArgStr (Controller.Namespace info); ArgStr (Controller.Name info)] ;;;
  fmt_Printf "  Expires: %s\n" [ArgDateWeekday (Controller.ExpiresAt info)] ;;;
  fmt_Printf "  Days until expiration: %d\n" [ArgInt (Controller.DaysUntilExp info)] ;;;
  let warnThresholdDays :=
    F64.to_int (F64.div (Duration_Hours (Controller.WarnBefore info)) 24%Q) in
  (if Controller.DaysUntilExp info <? 0 then
     fmt_Printf "  Status: 🔴 EXPIRED (%d days ago)\n"
       [ArgInt (wrap64 (- Controller.DaysUntilExp info))]
   else if Controller.DaysUntilExp info <=? warnThresholdDays then
     fmt_Printf "  Status: ⚠️  EXPIRING SOON (within %d day warning period)\n"
       [ArgInt warnThresholdDays]
   else
     fmt_Printf "  Status: ✅ OK (%d days remaining)\n"
       [ArgInt (wrap64 (Controller.DaysUntilExp info - warnThresholdDays))]) ;;;
  fmt_Println (strings_Repeat "-" 80).

(** The loop over [secrets.Items]: the verdicts of the tracked secrets are
    appended to [managedSecrets], in order. *)
Fixpoint collectManaged (items : list corev1.Secret)
    (managedSecrets : list Controller.SecretInfo) : C (list Controller.SecretInfo) :=
  match items with
  | [] => ret managedSecrets
  | secret :: rest =>
      r <- parseSecretInfo secret ;;
      collectManaged rest (if snd r then managedSecrets ++ [fst r] else managedSecrets)
  end.

(** The loop over [managedSecrets]. *)
Fixpoint displayAll (managedSecrets : list Controller.SecretInfo) : C unit :=
  match managedSecrets with
  | [] => ret tt
  | info :: rest => displaySecretInfo info ;;; displayAll rest
  end.

(** [listAndAnalyzeSecrets], on the answer of the API server to the
    listing of the secrets of all namespaces.  The result is the error,
    [None] for [nil]. *)
Definition listAndAnalyzeSecrets (listed : list corev1.Secret + error) : C (option error) :=
  fmt_Println "\nListing Secrets across all namespaces..." ;;;
  match listed with
  | inr err => ret (Some (ErrListSecrets err))
  | inl items =>
      fmt_Printf "Found %d total secrets in the cluster\n\n"
        [ArgInt (Z.of_nat (List.length items))] ;;;
      managedSecrets <- collectManaged items [] ;;
      if (List.length managedSecrets =? 0)%nat then
        fmt_Println "No secrets found with expiration annotations." ;;;
        fmt_Printf "Add the '%s' annotation to a Secret to track it.\n"
          [ArgStr AnnotationExpiresAt] ;;;
        ret None
      else
        fmt_Printf "Found %d secret(s) with expiration tracking:\n"
          [ArgInt (Z.of_nat (List.length managedSecrets))] ;;;
        fmt_Println (strings_Repeat "=" 80) ;;;
        displayAll managedSecrets ;;;
        ret None
  end.

End Main.

(** The watcher (package controller before the work queue): the handlers
    analyse the secret and print. *)
Module Watcher.
Import GoInt GoStrings K8s Console.
Local Open Scope string_scope.
Local Open Scope Z_scope.
Local Open Scope console_scope.

(** [parseSecretInfo]: the text of the controller's. *)
Definition parseSecretInfo (secret : corev1.Secret) : C (Controller.SecretInfo * bool) :=
  match corev1.Annotations secret !! Controller.AnnotationExpiresAt with
  | None => ret (Controller.SecretInfo_zero, false)
  | Some expiresAt =>
      match time_Parse_DateOnly expiresAt with
      | None => ret (Controller.SecretInfo_zero, false)
      | Some expTime =>
          let warnBefore :=
            match corev1.Annotations secret !! Controller.AnnotationWarnBefore with
            | Some warnStr =>
                match Controller.parseDuration warnStr with
                | Some parsed => parsed
                | None => 7 * 24 * Hour
                end
            | None => 7 * 24 * Hour
            end in
          now <- time_Now ;;
          let daysUntil :=
            F64.to_int (F64.div (Duration_Hours (Time_Sub expTime now)) 24%Q) in
          ret (Controller.mkSecretInfo (corev1.Name secret) (corev1.Namespace secret)
                 expTime warnBefore daysUntil, true)
      end
  end.

(** [analyzeSecret] checks the expiration status and prints appropriate
    warnings. *)
Definition analyzeSecret (info : Controller.SecretInfo) : C unit :=
  let warnThresholdDays :=
    F64.to_int (F64.div (Duration_Hours (Controller.WarnBefore info)) 24%Q) in
  (if Controller.DaysUntilExp info <? 0 then
     fmt_Printf "   EXPIRED %d days ago - action required!\n"
       [ArgInt (wrap64 (- Controller.DaysUntilExp info))]
   else if Controller.DaysUntilExp info <=? warnThresholdDays then
     fmt_Printf "   EXPIRING SOON: %d days remaining (within %d day warning threshold)\n"
       [ArgInt (Controller.DaysUntilExp info); ArgInt warnThresholdDays]
   else
     fmt_Printf "   OK: %d days until warning threshold\n"
       [ArgInt (wrap64 (Controller.DaysUntilExp info - warnThresholdDays))]) ;;;
  fmt_Println "".

(** [handleAdd] is called when a new Secret is created in the cluster. *)
Definition handleAdd (obj : Object) : C unit :=
  match obj with
  | ObjSecret secret =>
      r <- parseSecretInfo secret ;;
      let '(info, hasExpiration) := r in
      if negb hasExpiration then ret tt
      else
        fmt_Printf "➕ ADD: Secret %s/%s (expires: %s)\n"
          [ArgStr (corev1.Namespace secret); ArgStr (corev1.Name secret);
           ArgDate (Controller.ExpiresAt info)] ;;;
        analyzeSecret info
  | _ => fmt_Printf "Error: unexpected type in handleAdd: %T\n" [ArgType (typeOf obj)]
  end.

(** [handleUpdate] is called when an existing Secret is modified. *)
Definition handleUpdate (oldObj newObj : Object) : C unit :=
  match oldObj with
  | ObjSecret oldSecret =>
      match newObj with
      | ObjSecret newSecret =>
          (* Parse both old and new versions *)
          ro <- parseSecretInfo oldSecret ;;
          rn <- parseSecretInfo newSecret ;;
          let '(oldInfo, hadExpiration) := ro in
          let '(newInfo, hasExpiration) := rn in
          (* Case 1: Expiration annotation was removed *)
          if hadExpiration && negb hasExpiration then
            fmt_Printf "UPDATE: Secret %s/%s - expiration tracking removed\n"
              [ArgStr (corev1.Namespace newSecret); ArgStr (corev1.Name newSecret)]
          (* Case 2: Expiration annotation was added *)
          else if negb hadExpiration && hasExpiration then
            fmt_Printf "UPDATE: Secret %s/%s - expiration tracking added (expires: %s)\n"
              [ArgStr (corev1.Namespace newSecret); ArgStr (corev1.Name newSecret);
               ArgDate (Controller.ExpiresAt newInfo)] ;;;
            analyzeSecret newInfo
          (* Case 3: Neither version has expiration - ignore *)
          else if negb hasExpiration then ret tt
          (* Case 4: Expiration date changed *)
          else if negb (Controller.ExpiresAt oldInfo =? Controller.ExpiresAt newInfo) then
            fmt_Printf "UPDATE: Secret %s/%s - expiration changed (%s → %s)\n"
              [ArgStr (corev1.Namespace newSecret); ArgStr (corev1.Name newSecret);
               ArgDate (Controller.ExpiresAt oldInfo); ArgDate (Controller.ExpiresAt newInfo)] ;;;
            analyzeSecret newInfo
          else ret tt
      | _ =>
          fmt_Printf "Error: unexpected type in handleUpdate (new): %T\n"
            [ArgType (typeOf newObj)]
      end
  | _ =>
      fmt_Printf "Error: unexpected type in handleUpdate (old): %T\n" [ArgType (typeOf oldObj)]
  end.

(** [handleDelete] is called when a Secret is deleted from the cluster. *)
Definition handleDelete (obj : Object) : C unit :=
  let unwrapped : C (option corev1.Secret) :=
    match obj with
    | ObjSecret secret => ret (Some secret)
    | ObjTombstone _ (ObjSecret secret) => ret (Some secret)
    | ObjTombstone _ inner =>
        fmt_Printf "Error: tombstone contained unexpected type: %T\n"
          [ArgType (typeOf inner)] ;;;
        ret None
    | _ =>
        fmt_Printf "Error: unexpected type in handleDelete: %T\n" [ArgType (typeOf obj)] ;;;
        ret None
    end in
  s <- unwrapped ;;
  match s with
  | None => ret tt
  | Some secret =>
      (* Check if this was a managed Secret *)
      r <- parseSecretInfo secret ;;
      if negb (snd r) then ret tt
      else
        fmt_Printf "DELETE: Secret %s/%s (was tracking expiration)\n"
          [ArgStr (corev1.Namespace secret); ArgStr (corev1.Name secret)]
  end.

End Watcher.

(* ===================================================================== *)
(** * Sample secrets and worlds *)
(* ===================================================================== *)

Module Examples.
Import GoInt GoStrings K8s Workqueue Controller.
Local Open Scope string_scope.
Local Open Scope Z_scope.

Definition annotations (expiresAt : option string) (warnBefore : option string)
  : gmap string string :=
  let m := match expiresAt with
           | Some v => <[AnnotationExpiresAt := v]> ∅
           | None => ∅
           end in
  match warnBefore with
  | Some v => <[AnnotationWarnBefore := v]> m
  | None => m
  end.

(** [default/api-key], expiring on 2024-12-31, default lead time. *)
Definition apiKey : corev1.Secret :=
  corev1.mkSecret "api-key" "default" "41"
    (annotations (Some "2024-12-31") None) ∅ (<["token" := "c2VjcmV0"]> ∅) ∅ "Opaque" None.

(** The same object after a rotation of its payload: other data, labels,
    type and resource version; same namespace, name and annotations. *)
Definition apiKeyRotated : corev1.Secret :=
  corev1.mkSecret "api-key" "default" "42"
    (annotations (Some "2024-12-31") None) (<["rotated" := "yes"]> ∅)
    (<["token" := "bmV3"]> ∅) (<["note" := "rotated"]> ∅) "kubernetes.io/basic-auth"
    (Some true).

(** The object a resync would deliver next to [apiKey]: same resource
    version (whatever else is in it). *)
Definition apiKeyResync : corev1.Secret :=
  corev1.mkSecret "api-key" "default" "41"
    (annotations (Some "2031-01-01") (Some "30d")) ∅ ∅ ∅ "Opaque" None.

(** [apiKey] after its annotations were removed. *)
Definition apiKeyUntracked : corev1.Secret :=
  corev1.mkSecret "api-key" "default" "46" ∅ ∅ (<["token" := "c2VjcmV0"]> ∅) ∅ "Opaque" None.

(** Lead time of three days. *)
Definition apiKey3d : corev1.Secret :=
  corev1.mkSecret "api-key" "default" "43"
    (annotations (Some "2024-12-31") (Some "3d")) ∅ ∅ ∅ "Opaque" None.

(** Lead time of 106752 days: one day more than an [int64] of nanoseconds
    can hold. *)
Definition apiKeyLongLead : corev1.Secret :=
  corev1.mkSecret "api-key" "default" "44"
    (annotations (Some "2024-12-31") (Some "106752d")) ∅ ∅ ∅ "Opaque" None.

(** A lead time that is neither days nor a duration. *)
Definition apiKeyBadLead : corev1.Secret :=
  corev1.mkSecret "api-key" "default" "45"
    (annotations (Some "2024-12-31") (Some "soon")) ∅ ∅ ∅ "Opaque" None.

(** An expiration annotation that is not a date. *)
Definition notADate : corev1.Secret :=
  corev1.mkSecret "broken" "default" "7"
    (annotations (Some "not-a-date") None) ∅ ∅ ∅ "Opaque" None.

(** No annotation at all. *)
Definition plain : corev1.Secret :=
  corev1.mkSecret "plain" "default" "3" ∅ ∅ ∅ ∅ "Opaque" None.

(** A secret whose name holds a slash (the API server would refuse it). *)
Definition slashed : corev1.Secret :=
  corev1.mkSecret "b/c" "a" "1" (annotations (Some "2024-12-31") None) ∅ ∅ ∅ "Opaque" None.

(** Midnight UTC of a date, plus some hours. *)
Definition instant (date : string) (hours : Z) : Time :=
  default 0 (time_Parse_DateOnly date) + hours * Hour.

(** A store holding the given objects under the given keys. *)
Definition storeOf (objs : list (string * Object)) (key : string) : GetByKeyResult :=
  match (list_to_map objs : gmap string Object) !! key with
  | Some obj => StoreFound obj
  | None => StoreMissing
  end.

(** A store whose lookups fail. *)
Definition brokenStore (key : string) : GetByKeyResult :=
  StoreError (ErrStore "index corrupted").

(** A world over the queue of the specification: the clock stands at
    [now], nothing logged, nothing recorded, no call made yet. *)
Definition worldAt (now : Time) (st : string -> GetByKeyResult) (q : SpecQueue)
  : World SpecQueue :=
  mkWorld (fun _ => now) 0 st q [] [] [].

(** The queue with the given keys pending. *)
Definition queueOf (keys : list string) : SpecQueue :=
  mkSpecQueue keys ∅ ∅ ∅ [] false.


End Examples.

(* ===================================================================== *)
(** * Facts: float64 rounding *)
(* ===================================================================== *)

Module F64Facts.
Import F64.
Local Open Scope Q_scope.

Lemma rne_mono x y : x <= y -> (rne x <= rne y)%Z.
Proof.
  intros Hxy. unfold rne.
  pose proof (Qfloor_le x) as Hx1. pose proof (Qlt_floor x) as Hx2.
  pose proof (Qfloor_le y) as Hy1. pose proof (Qlt_floor y) as Hy2.
  pose proof (Qfloor_resp_le _ _ Hxy) as Hf.
  rewrite inject_Z_plus in Hx2, Hy2.
  destruct (Z_lt_le_dec (Qfloor x) (Qfloor y)) as [Hlt | Hge].
  - destruct (Qcompare_spec (x - inject_Z (Qfloor x)) (1 # 2));
      destruct (Qcompare_spec (y - inject_Z (Qfloor y)) (1 # 2));
      destruct (Z.even (Qfloor x)); destruct (Z.even (Qfloor y)); lia.
  - assert (Heq : Qfloor x = Qfloor y) by lia.
    rewrite Heq in *.
    destruct (Qcompare_spec (x - inject_Z (Qfloor y)) (1 # 2));
      destruct (Qcompare_spec (y - inject_Z (Qfloor y)) (1 # 2));
      destruct (Z.even (Qfloor y)); try lia; lra.
Qed.

Lemma rne_Z z : rne (inject_Z z) = z.
Proof.
  unfold rne. rewrite Qfloor_Z.
  destruct (Qcompare_spec (inject_Z z - inject_Z z) (1 # 2)); try lra.
  reflexivity.
Qed.

Lemma rne_comp x y : x == y -> rne x = rne y.
Proof.
  intros H. apply Z.le_antisymm; apply rne_mono; rewrite H; apply Qle_refl.
Qed.

Lemma pow2_pos e : 0 < 2 ^ e.
Proof. apply Qpower_0_lt. reflexivity. Qed.

Lemma pow2_succ e : 2 ^ (e + 1) == 2 * 2 ^ e.
Proof. rewrite Qpower_plus by discriminate. simpl (2 ^ 1). ring. Qed.

Lemma pow2_le e e' : (e <= e')%Z -> 2 ^ e <= 2 ^ e'.
Proof. intros. apply Qpower_le_compat_l; [assumption | discriminate]. Qed.

Lemma pow2_Z n : (0 <= n)%Z -> inject_Z (2 ^ n) == 2 ^ n.
Proof. intros. now rewrite Zpower_Qpower. Qed.

Lemma pow2_lt_inv e e' : 2 ^ e < 2 ^ e' -> (e < e')%Z.
Proof. intros. apply (Qpower_lt_compat_l_inv 2); [assumption | reflexivity]. Qed.

Lemma ilog2_spec x : 0 < x -> 2 ^ ilog2 x <= x /\ x < 2 ^ (ilog2 x + 1).
Proof.
  intros Hx. destruct x as [a b].
  assert (Ha : (0 < a)%Z) by (unfold Qlt in Hx; simpl in Hx; lia).
  unfold ilog2. cbn [Qnum Qden].
  set (la := Z.log2 a). set (lb := Z.log2 (Zpos b)).
  destruct (Z.log2_spec a Ha) as [Ha1 Ha2]. fold la in Ha1, Ha2.
  destruct (Z.log2_spec (Zpos b) eq_refl) as [Hb1 Hb2]. fold lb in Hb1, Hb2.
  assert (Hla : (0 <= la)%Z) by apply Z.log2_nonneg.
  assert (Hlb : (0 <= lb)%Z) by apply Z.log2_nonneg.
  rewrite Zle_Qle, pow2_Z in Ha1, Hb1 by assumption.
  rewrite Zlt_Qlt, pow2_Z in Ha2, Hb2 by lia.
  unfold Z.succ in Ha2, Hb2. rewrite pow2_succ in Ha2, Hb2.
  assert (HP : 2 ^ (la - lb) * 2 ^ lb == 2 ^ la).
  { rewrite <- Qpower_plus by discriminate. now replace (la - lb + lb)%Z with la by lia. }
  assert (Hxb : (a # b) * inject_Z (Zpos b) == inject_Z a).
  { rewrite Qmake_Qdiv. field. discriminate. }
  pose proof (pow2_pos (la - lb)) as HPpos.
  pose proof (pow2_pos lb) as HBpos.
  set (P := 2 ^ (la - lb)) in *. set (B := 2 ^ lb) in *. set (A := 2 ^ la) in *.
  set (qa := inject_Z a) in *. set (qb := inject_Z (Zpos b)) in *. set (x := a # b) in *.
  assert (Hup : x < 2 * P).
  { apply (Qmult_lt_r _ _ qb); [lra|]. rewrite Hxb.
    apply Qlt_le_trans with (2 * (P * B)); [lra|].
    assert (P * B <= P * qb) by (apply Qmult_le_l; lra). lra. }
  assert (Hlo : P < 2 * x).
  { apply (Qmult_lt_r _ _ qb); [lra|].
    apply Qlt_le_trans with (2 * (P * B)).
    - assert (P * qb < P * (2 * B)) by (apply Qmult_lt_l; lra). lra.
    - setoid_replace (2 * x * qb) with (2 * (x * qb)) using relation Qeq by ring. lra. }
  destruct (Qle_bool P x) eqn:Hc.
  - apply Qle_bool_iff in Hc. split; [assumption|]. subst P. rewrite pow2_succ. exact Hup.
  - assert (Hlt : x < P).
    { apply Qnot_le_lt. intros Hle. apply Qle_bool_iff in Hle. congruence. }
    assert (HP2 : P == 2 * 2 ^ (la - lb - 1)).
    { subst P. rewrite <- pow2_succ. now replace (la - lb - 1 + 1)%Z with (la - lb)%Z by lia. }
    split.
    + lra.
    + replace (la - lb - 1 + 1)%Z with (la - lb)%Z by lia. exact Hlt.
Qed.


Lemma round_zero x : x == 0 -> round x = 0.
Proof. intros H. unfold round. apply Qeq_bool_iff in H. now rewrite H. Qed.

Lemma round_nz x : ~ x == 0 -> round x == inject_Z (rne (x / 2 ^ E x)) * 2 ^ E x.
Proof.
  intros H. unfold round.
  destruct (Qeq_bool x 0) eqn:Hc.
  - apply Qeq_bool_iff in Hc. contradiction.
  - apply Qred_correct.
Qed.

Lemma Qabs_pos_eq x : 0 < x -> Qabs x = x.
Proof.
  destruct x as [a b]. unfold Qlt. simpl. intros H.
  unfold Qabs. f_equal. lia.
Qed.

Lemma Qabs_neg_eq x : x < 0 -> Qabs x = - x.
Proof.
  destruct x as [a b]. unfold Qlt. simpl. intros H.
  unfold Qabs, Qopp. simpl. f_equal. lia.
Qed.

(** The binade of [x]: its magnitude lies in [2^(52+E), 2^(53+E)). *)
Lemma binade x : ~ x == 0 ->
  2 ^ (52 + E x) <= Qabs x /\ Qabs x < 2 ^ (53 + E x).
Proof.
  intros H. unfold E.
  assert (Hp : 0 < Qabs x).
  { destruct (Qlt_le_dec 0 (Qabs x)); [assumption|].
    exfalso. apply H. pose proof (Qabs_nonneg x).
    assert (Hz : Qabs x == 0) by lra.
    destruct (Qlt_le_dec 0 x) as [Hx | Hx].
    - rewrite Qabs_pos in Hz; lra.
    - rewrite Qabs_neg in Hz; lra. }
  destruct (ilog2_spec _ Hp) as [H1 H2].
  replace (52 + (ilog2 (Qabs x) - 52))%Z with (ilog2 (Qabs x)) by lia.
  replace (53 + (ilog2 (Qabs x) - 52))%Z with (ilog2 (Qabs x) + 1)%Z by lia.
  split; assumption.
Qed.

Lemma pow2_split k e : 2 ^ (k + e) == 2 ^ k * 2 ^ e.
Proof. apply Qpower_plus. discriminate. Qed.

Lemma scaled_pos x : 0 < x ->
  inject_Z (2 ^ 52) <= x / 2 ^ E x /\ x / 2 ^ E x < inject_Z (2 ^ 53).
Proof.
  intros Hx. assert (Hnz : ~ x == 0) by lra.
  destruct (binade x Hnz) as [H1 H2].
  rewrite (Qabs_pos_eq x Hx) in H1, H2.
  rewrite pow2_split in H1, H2.
  rewrite !pow2_Z by lia.
  pose proof (pow2_pos (E x)) as He.
  split.
  - apply Qle_shift_div_l; assumption.
  - apply Qlt_shift_div_r; assumption.
Qed.

Lemma scaled_neg x : x < 0 ->
  inject_Z (- 2 ^ 53) < x / 2 ^ E x /\ x / 2 ^ E x <= inject_Z (- 2 ^ 52).
Proof.
  intros Hx. assert (Hnz : ~ x == 0) by lra.
  destruct (binade x Hnz) as [H1 H2].
  rewrite (Qabs_neg_eq x Hx) in H1, H2.
  rewrite pow2_split in H1, H2.
  rewrite !inject_Z_opp, !pow2_Z by lia.
  pose proof (pow2_pos (E x)) as He.
  split.
  - apply Qlt_shift_div_l; [assumption|]. lra.
  - apply Qle_shift_div_r; [assumption|]. lra.
Qed.

Lemma round_pos_bounds x : 0 < x ->
  2 ^ (52 + E x) <= round x /\ round x <= 2 ^ (53 + E x).
Proof.
  intros Hx. assert (Hnz : ~ x == 0) by lra.
  rewrite (round_nz x Hnz).
  destruct (scaled_pos x Hx) as [H1 H2].
  apply rne_mono in H1. apply Qlt_le_weak, rne_mono in H2.
  rewrite rne_Z in H1, H2.
  rewrite Zle_Qle in H1, H2. rewrite pow2_Z in H1, H2 by lia.
  rewrite !pow2_split.
  pose proof (pow2_pos (E x)) as He.
  split; apply Qmult_le_compat_r; lra.
Qed.

Lemma round_neg_bounds x : x < 0 ->
  - 2 ^ (53 + E x) <= round x /\ round x <= - 2 ^ (52 + E x).
Proof.
  intros Hx. assert (Hnz : ~ x == 0) by lra.
  rewrite (round_nz x Hnz).
  destruct (scaled_neg x Hx) as [H1 H2].
  apply Qlt_le_weak, rne_mono in H1. apply rne_mono in H2.
  rewrite rne_Z in H1, H2.
  rewrite Zle_Qle in H1, H2. rewrite inject_Z_opp, pow2_Z in H1, H2 by lia.
  rewrite !pow2_split.
  pose proof (pow2_pos (E x)) as He.
  split.
  - setoid_replace (- (2 ^ 53 * 2 ^ E x)) with ((- 2 ^ 53) * 2 ^ E x) using relation Qeq by ring.
    apply Qmult_le_compat_r; lra.
  - setoid_replace (- (2 ^ 52 * 2 ^ E x)) with ((- 2 ^ 52) * 2 ^ E x) using relation Qeq by ring.
    apply Qmult_le_compat_r; lra.
Qed.

Lemma round_same_binade x y : ~ x == 0 -> ~ y == 0 -> E x = E y -> x <= y ->
  round x <= round y.
Proof.
  intros Hx Hy He Hxy. rewrite (round_nz x Hx), (round_nz y Hy), He.
  pose proof (pow2_pos (E y)) as Hp.
  apply Qmult_le_compat_r; [|lra].
  rewrite <- Zle_Qle. apply rne_mono.
  apply Qmult_le_compat_r; [assumption|].
  apply Qlt_le_weak, Qinv_lt_0_compat, Hp.
Qed.

(** Rounding to nearest is monotone. *)
Lemma round_mono x y : x <= y -> round x <= round y.
Proof.
  intros Hxy.
  destruct (Q_dec x 0) as [[Hx | Hx] | Hx]; destruct (Q_dec y 0) as [[Hy | Hy] | Hy];
    try lra.
  - (* both negative *)
    destruct (binade x ltac:(lra)) as [Bx1 Bx2]. destruct (binade y ltac:(lra)) as [By1 By2].
    rewrite (Qabs_neg_eq _ Hx) in Bx1, Bx2. rewrite (Qabs_neg_eq _ Hy) in By1, By2.
    destruct (Z.lt_trichotomy (E x) (E y)) as [Hlt | [Heq | Hgt]].
    + exfalso. assert (2 ^ (53 + E x) <= 2 ^ (52 + E y)) by (apply pow2_le; lia). lra.
    + apply round_same_binade; [lra | lra | assumption | assumption].
    + destruct (round_neg_bounds x Hx) as [_ U]. destruct (round_neg_bounds y Hy) as [L _].
      assert (2 ^ (53 + E y) <= 2 ^ (52 + E x)) by (apply pow2_le; lia). lra.
  - destruct (round_neg_bounds x Hx) as [_ U]. pose proof (pow2_pos (52 + E x)).
    destruct (round_pos_bounds y Hy) as [L _]. pose proof (pow2_pos (52 + E y)). lra.
  - destruct (round_neg_bounds x Hx) as [_ U]. pose proof (pow2_pos (52 + E x)).
    rewrite (round_zero y Hy). lra.
  - (* both positive *)
    destruct (binade x ltac:(lra)) as [Bx1 Bx2]. destruct (binade y ltac:(lra)) as [By1 By2].
    rewrite (Qabs_pos_eq _ Hx) in Bx1, Bx2. rewrite (Qabs_pos_eq _ Hy) in By1, By2.
    destruct (Z.lt_trichotomy (E x) (E y)) as [Hlt | [Heq | Hgt]].
    + destruct (round_pos_bounds x Hx) as [_ U]. destruct (round_pos_bounds y Hy) as [L _].
      assert (2 ^ (53 + E x) <= 2 ^ (52 + E y)) by (apply pow2_le; lia). lra.
    + apply round_same_binade; [lra | lra | assumption | assumption].
    + exfalso. assert (2 ^ (53 + E y) <= 2 ^ (52 + E x)) by (apply pow2_le; lia). lra.
  - destruct (round_pos_bounds y Hy) as [L _]. pose proof (pow2_pos (52 + E y)).
    rewrite (round_zero x Hx). lra.
  - rewrite (round_zero x Hx), (round_zero y Hy). lra.
Qed.

Lemma round_comp x y : x == y -> round x == round y.
Proof. intros H. apply Qle_antisym; apply round_mono; rewrite H; apply Qle_refl. Qed.

(** Integers below 2^53 in magnitude are doubles. *)
Lemma round_Z z : (Z.abs z < 2 ^ 53)%Z -> round (inject_Z z) == inject_Z z.
Proof.
  intros Hz.
  destruct (Z.eq_dec z 0%Z) as [-> | Hnz]; [reflexivity|].
  assert (Hq : ~ inject_Z z == 0).
  { intros H. apply Hnz. unfold Qeq in H. simpl in H. lia. }
  rewrite (round_nz _ Hq).
  destruct (binade _ Hq) as [B1 _].
  assert (Habs : Qabs (inject_Z z) == inject_Z (Z.abs z)) by reflexivity.
  rewrite Habs in B1.
  assert (HE : (E (inject_Z z) <= 0)%Z).
  { assert (2 ^ (52 + E (inject_Z z)) < 2 ^ 53).
    { eapply Qle_lt_trans; [exact B1|]. rewrite <- pow2_Z by lia. now rewrite <- Zlt_Qlt. }
    apply pow2_lt_inv in H. lia. }
  set (e := E (inject_Z z)) in *.
  assert (Hs : inject_Z z / 2 ^ e == inject_Z (z * 2 ^ (- e))).
  { rewrite inject_Z_mult, pow2_Z by lia. rewrite Qpower_opp. reflexivity. }
  rewrite (rne_comp _ _ Hs), rne_Z, inject_Z_mult, pow2_Z by lia.
  rewrite <- Qmult_assoc, <- pow2_split. replace (- e + e)%Z with 0%Z by lia.
  simpl. ring.
Qed.

Lemma to_int_mono x y : x <= y -> (to_int x <= to_int y)%Z.
Proof.
  intros Hxy. unfold to_int.
  destruct (Qle_bool 0 x) eqn:Hx; destruct (Qle_bool 0 y) eqn:Hy.
  - now apply Qfloor_resp_le.
  - apply Qle_bool_iff in Hx.
    assert (~ 0 <= y) by (intros H; apply Qle_bool_iff in H; congruence). lra.
  - assert (Hx' : ~ 0 <= x) by (intros H; apply Qle_bool_iff in H; congruence).
    apply Qle_bool_iff in Hy.
    apply Z.le_trans with 0%Z.
    + replace 0%Z with (Qceiling 0) by reflexivity. apply Qceiling_resp_le. lra.
    + replace 0%Z with (Qfloor 0) by reflexivity. now apply Qfloor_resp_le.
  - now apply Qceiling_resp_le.
Qed.

Lemma to_int_Z z : to_int (inject_Z z) = z.
Proof. unfold to_int. destruct (Qle_bool 0 (inject_Z z)); [apply Qfloor_Z | apply Qceiling_Z]. Qed.

Lemma to_int_comp x y : x == y -> to_int x = to_int y.
Proof. intros H. apply Z.le_antisymm; apply to_int_mono; rewrite H; apply Qle_refl. Qed.

End F64Facts.

(* ===================================================================== *)
(** * Facts: durations in hours and in days *)
(* ===================================================================== *)

Module GoIntFacts.
Import F64 F64Facts GoInt.
Local Open Scope Z_scope.

(** The number of whole days of a duration, the way the controller
    computes it: [int(d.Hours() / 24)]. *)
Local Abbreviation days d := (F64.to_int (F64.div (Duration_Hours d) 24%Q)).

(** Unfold the units down to numbers, for [lia]. *)
Ltac units :=
  unfold Day, Hour, Minute, Second, Millisecond, Microsecond, Nanosecond,
         MinInt64, MaxInt64 in *.

Lemma of_int_exact n : Z.abs n < 2 ^ 53 -> (of_int n == inject_Z n)%Q.
Proof. apply round_Z. Qed.

(** The fraction of an hour, [float64(nsec)/(60*60*1e9)]. *)
Local Abbreviation frac n := (F64.div (F64.of_int n) (inject_Z (60 * 60 * 10 ^ 9))).

Lemma frac_mono n1 n2 :
  Z.abs n1 < Hour -> Z.abs n2 < Hour -> n1 <= n2 -> (frac n1 <= frac n2)%Q.
Proof.
  intros H1 H2 Hle. unfold div. apply round_mono.
  assert (E1 := of_int_exact n1 ltac:(units; lia)).
  assert (E2 := of_int_exact n2 ltac:(units; lia)).
  rewrite E1, E2.
  apply Qmult_le_compat_r; [now rewrite <- Zle_Qle | discriminate].
Qed.

Lemma frac_zero : frac 0 = 0%Q.
Proof. reflexivity. Qed.

Lemma frac_bounds n :
  Z.abs n < Hour ->
  (- 1 <= frac n <= 1)%Q /\ (0 <= n -> (0 <= frac n)%Q) /\ (n <= 0 -> (frac n <= 0)%Q).
Proof.
  intros Hn.
  assert (Hlo : (frac (- (Hour - 1)) <= frac n)%Q)
    by (apply frac_mono; units; lia).
  assert (Hhi : (frac n <= frac (Hour - 1))%Q)
    by (apply frac_mono; units; lia).
  assert (Elo : (- 1 <= frac (- (Hour - 1)))%Q) by (vm_compute; discriminate).
  assert (Ehi : (frac (Hour - 1) <= 1)%Q) by (vm_compute; discriminate).
  split; [split; lra|]. split; intros Hs.
  - rewrite <- frac_zero. apply frac_mono; units; lia.
  - rewrite <- frac_zero. apply frac_mono; units; lia.
Qed.

Lemma quot_rem_Hour d :
  d = Hour * Z.quot d Hour + Z.rem d Hour /\
  Z.abs (Z.rem d Hour) < Hour /\
  (0 <= d -> 0 <= Z.rem d Hour /\ 0 <= Z.quot d Hour) /\
  (d <= 0 -> Z.rem d Hour <= 0 /\ Z.quot d Hour <= 0).
Proof.
  assert (HH : Hour = 3600000000000) by reflexivity.
  pose proof (Z.quot_rem' d Hour) as Heq.
  split; [exact Heq|]. split.
  - pose proof (Z.rem_bound_abs d Hour ltac:(rewrite HH; lia)). lia.
  - split; intros Hs.
    + split; [apply Z.rem_nonneg; lia | apply Z.quot_pos; lia].
    + split; [apply Z.rem_nonpos; lia|].
      rewrite <- (Z.opp_involutive d), Z.quot_opp_l by lia.
      assert (0 <= Z.quot (- d) Hour) by (apply Z.quot_pos; lia). lia.
Qed.

(** [Duration.Hours] never decreases when the duration grows. *)
Lemma Duration_Hours_mono d1 d2 :
  MinInt64 <= d1 -> d1 <= d2 -> d2 <= MaxInt64 ->
  (Duration_Hours d1 <= Duration_Hours d2)%Q.
Proof.
  intros Hlo Hle Hhi. unfold Duration_Hours, add.
  destruct (quot_rem_Hour d1) as (Q1 & R1 & P1 & N1).
  destruct (quot_rem_Hour d2) as (Q2 & R2 & P2 & N2).
  set (h1 := Z.quot d1 Hour) in *. set (n1 := Z.rem d1 Hour) in *.
  set (h2 := Z.quot d2 Hour) in *. set (n2 := Z.rem d2 Hour) in *.
  assert (HH : Hour = 3600000000000) by reflexivity.
  unfold MinInt64, MaxInt64 in *. rewrite HH in *.
  assert (Hh1 : Z.abs h1 < 2 ^ 53) by lia.
  assert (Hh2 : Z.abs h2 < 2 ^ 53) by lia.
  apply round_mono.
  rewrite (of_int_exact h1 Hh1), (of_int_exact h2 Hh2).
  destruct (frac_bounds n1 R1) as ([L1 U1] & Pos1 & Neg1).
  destruct (frac_bounds n2 R2) as ([L2 U2] & Pos2 & Neg2).
  destruct (Z.eq_dec h1 h2) as [Heq | Hne].
  - rewrite Heq. assert (n1 <= n2) by lia.
    pose proof (frac_mono n1 n2 R1 R2 H). lra.
  - assert (Hlt : h1 + 1 <= h2) by lia.
    rewrite Zle_Qle, inject_Z_plus in Hlt. change (inject_Z 1) with 1%Q in Hlt.
    destruct (Z_le_gt_dec 1 h2) as [Hp | Hp].
    + assert (0 <= d2) by lia. specialize (P2 H) as [P2 _]. specialize (Pos2 P2). lra.
    + assert (d1 <= 0) by lia. specialize (N1 H) as [N1 _]. specialize (Neg1 N1). lra.
Qed.

Lemma days_mono d1 d2 :
  MinInt64 <= d1 -> d1 <= d2 -> d2 <= MaxInt64 -> days d1 <= days d2.
Proof.
  intros. apply to_int_mono. unfold div. apply round_mono.
  apply Qmult_le_compat_r; [now apply Duration_Hours_mono | discriminate].
Qed.

(** A whole number of days is counted exactly. *)
Lemma days_exact k :
  MinInt64 <= k * Day <= MaxInt64 -> days (k * Day) = k.
Proof.
  intros Hr. unfold MinInt64, MaxInt64, Day in Hr.
  assert (HH : Hour = 3600000000000) by reflexivity. rewrite HH in Hr.
  assert (Hq : Z.quot (k * Day) Hour = 24 * k).
  { unfold Day. replace (k * (24 * Hour)) with (24 * k * Hour) by ring.
    apply Z.quot_mul. rewrite HH. lia. }
  assert (Hrm : Z.rem (k * Day) Hour = 0).
  { unfold Day. replace (k * (24 * Hour)) with (24 * k * Hour) by ring.
    apply Z.rem_mul. rewrite HH. lia. }
  unfold Duration_Hours. rewrite Hq, Hrm.
  change (F64.div (of_int 0) (inject_Z (60 * 60 * 10 ^ 9))) with 0%Q.
  assert (H1 : (add (of_int (24 * k)) 0 == inject_Z (24 * k))%Q).
  { unfold add. apply Qeq_trans with (round (inject_Z (24 * k))).
    - apply round_comp. rewrite of_int_exact by lia. ring.
    - apply round_Z. lia. }
  assert (H2 : (div (add (of_int (24 * k)) 0) 24 == inject_Z k)%Q).
  { unfold div. apply Qeq_trans with (round (inject_Z k)).
    - apply round_comp. rewrite H1, inject_Z_mult. field.
    - apply round_Z. lia. }
  rewrite (to_int_comp _ _ H2). apply to_int_Z.
Qed.

(** The day count is negative exactly from 24 hours in the past on. *)
Lemma days_neg_iff d :
  MinInt64 <= d <= MaxInt64 -> (days d < 0 <-> d <= - Day).
Proof.
  intros Hr. split; intros H.
  - destruct (Z_le_gt_dec d (- Day)) as [Hle | Hgt]; [assumption|].
    exfalso.
    assert (Hm : days (- Day + 1) <= days d).
    { apply days_mono; unfold MinInt64, MaxInt64, Day in *; try lia.
      vm_compute. discriminate. }
    assert (Hz : days (- Day + 1) = 0) by (vm_compute; reflexivity).
    lia.
  - assert (Hm : days d <= days (- Day)).
    { apply days_mono; unfold MinInt64, MaxInt64, Day in *; try lia.
      vm_compute. discriminate. }
    assert (Hz : days (- Day) = - 1) by (vm_compute; reflexivity).
    lia.
Qed.

(** Less than 24 hours either way counts as zero days. *)
Lemma days_zero d : - Day < d < Day -> days d = 0.
Proof.
  intros [Hlo Hhi].
  assert (HD : Day = 86400000000000) by reflexivity.
  assert (HMin : MinInt64 = - 9223372036854775808) by reflexivity.
  assert (HMax : MaxInt64 = 9223372036854775807) by reflexivity.
  assert (H1 : days (- Day + 1) <= days d) by (apply days_mono; lia).
  assert (H2 : days d <= days (Day - 1)) by (apply days_mono; lia).
  assert (Hz1 : days (- Day + 1) = 0) by (vm_compute; reflexivity).
  assert (Hz2 : days (Day - 1) = 0) by (vm_compute; reflexivity).
  lia.
Qed.

(** The day count is the exact quotient truncated toward zero, or one
    step further from zero (when rounding reaches the next whole day). *)
Lemma days_near_quot d :
  MinInt64 <= d <= MaxInt64 ->
  (0 <= d -> Z.quot d Day <= days d <= Z.quot d Day + 1) /\
  (d <= 0 -> Z.quot d Day - 1 <= days d <= Z.quot d Day).
Proof.
  intros Hr.
  assert (HD : Day = 86400000000000) by reflexivity.
  pose proof (Z.quot_rem' d Day) as Heq.
  pose proof (Z.rem_bound_abs d Day ltac:(rewrite HD; lia)) as Hb.
  unfold MinInt64, MaxInt64 in *.
  split; intros Hs.
  - pose proof (Z.rem_nonneg d Day ltac:(rewrite HD; lia) Hs) as Hn.
    assert (0 <= Z.quot d Day) by (apply Z.quot_pos; lia).
    assert (L : days (Z.quot d Day * Day) <= days d)
      by (apply days_mono; unfold MinInt64, MaxInt64; lia).
    rewrite days_exact in L by (unfold MinInt64, MaxInt64; lia).
    split; [exact L|].
    destruct (Z_le_gt_dec ((Z.quot d Day + 1) * Day) MaxInt64) as [Hin | Hout].
    + assert (U : days d <= days ((Z.quot d Day + 1) * Day))
        by (apply days_mono; unfold MinInt64, MaxInt64 in *; lia).
      rewrite days_exact in U by (unfold MinInt64, MaxInt64 in *; lia). exact U.
    + assert (U : days d <= days MaxInt64)
        by (apply days_mono; unfold MinInt64, MaxInt64 in *; lia).
      assert (Hv : days MaxInt64 = 106751) by (vm_compute; reflexivity).
      unfold MaxInt64 in *. lia.
  - pose proof (Z.rem_nonpos d Day ltac:(rewrite HD; lia) Hs) as Hn.
    assert (Z.quot d Day <= 0).
    { rewrite <- (Z.opp_involutive d), Z.quot_opp_l by lia.
      assert (0 <= Z.quot (- d) Day) by (apply Z.quot_pos; lia). lia. }
    assert (U : days d <= days (Z.quot d Day * Day))
      by (apply days_mono; unfold MinInt64, MaxInt64; lia).
    rewrite days_exact in U by (unfold MinInt64, MaxInt64; lia).
    split; [|exact U].
    destruct (Z_le_gt_dec MinInt64 ((Z.quot d Day - 1) * Day)) as [Hin | Hout].
    + assert (L : days ((Z.quot d Day - 1) * Day) <= days d)
        by (apply days_mono; unfold MinInt64, MaxInt64 in *; lia).
      rewrite days_exact in L by (unfold MinInt64, MaxInt64 in *; lia). exact L.
    + assert (L : days MinInt64 <= days d)
        by (apply days_mono; unfold MinInt64, MaxInt64 in *; lia).
      assert (Hv : days MinInt64 = - 106751) by (vm_compute; reflexivity).
      unfold MinInt64 in *. lia.
Qed.

(** The floats of the day count stay inside the normal range of binary64
    (between 2^-1022 and 2^1024 in magnitude, or zero), which is what
    allows [F64] to leave the exponent unbounded: for a duration that is
    not zero, the hours and the days are between 2^-47 and 2^22 in
    magnitude. *)
Lemma Duration_Hours_range d :
  MinInt64 <= d <= MaxInt64 ->
  (- (2 ^ 22) <= Duration_Hours d <= 2 ^ 22)%Q /\
  (0 < d -> (2 ^ (- 42) <= Duration_Hours d)%Q) /\
  (d < 0 -> (Duration_Hours d <= - 2 ^ (- 42))%Q).
Proof.
  intros Hr.
  assert (HMin : MinInt64 = - 9223372036854775808) by reflexivity.
  assert (HMax : MaxInt64 = 9223372036854775807) by reflexivity.
  assert (Hlo : (Duration_Hours MinInt64 <= Duration_Hours d)%Q)
    by (apply Duration_Hours_mono; lia).
  assert (Hhi : (Duration_Hours d <= Duration_Hours MaxInt64)%Q)
    by (apply Duration_Hours_mono; lia).
  assert (Elo : (- (2 ^ 22) <= Duration_Hours MinInt64)%Q) by (vm_compute; discriminate).
  assert (Ehi : (Duration_Hours MaxInt64 <= 2 ^ 22)%Q) by (vm_compute; discriminate).
  split; [split; lra|]. split; intros Hs.
  - assert (H1 : (Duration_Hours 1%Z <= Duration_Hours d)%Q)
      by (apply Duration_Hours_mono; lia).
    assert (E1 : (2 ^ (- 42) <= Duration_Hours 1%Z)%Q) by (vm_compute; discriminate).
    lra.
  - assert (H1 : (Duration_Hours d <= Duration_Hours (- 1)%Z)%Q)
      by (apply Duration_Hours_mono; lia).
    assert (E1 : (Duration_Hours (- 1)%Z <= - 2 ^ (- 42))%Q) by (vm_compute; discriminate).
    lra.
Qed.

Lemma days_float_range d :
  MinInt64 <= d <= MaxInt64 ->
  (- (2 ^ 18) <= F64.div (Duration_Hours d) 24 <= 2 ^ 18)%Q /\
  (0 < d -> (2 ^ (- 47) <= F64.div (Duration_Hours d) 24)%Q) /\
  (d < 0 -> (F64.div (Duration_Hours d) 24 <= - 2 ^ (- 47))%Q).
Proof.
  intros Hr.
  assert (HMin : MinInt64 = - 9223372036854775808) by reflexivity.
  assert (HMax : MaxInt64 = 9223372036854775807) by reflexivity.
  assert (Hm : forall a b, MinInt64 <= a -> a <= b -> b <= MaxInt64 ->
            (F64.div (Duration_Hours a) 24 <= F64.div (Duration_Hours b) 24)%Q).
  { intros a b Ha Hab Hb. unfold div. apply round_mono.
    apply Qmult_le_compat_r; [now apply Duration_Hours_mono | discriminate]. }
  assert (Hlo := Hm MinInt64 d ltac:(lia) ltac:(lia) ltac:(lia)).
  assert (Hhi := Hm d MaxInt64 ltac:(lia) ltac:(lia) ltac:(lia)).
  assert (Elo : (- (2 ^ 18) <= F64.div (Duration_Hours MinInt64) 24)%Q)
    by (vm_compute; discriminate).
  assert (Ehi : (F64.div (Duration_Hours MaxInt64) 24 <= 2 ^ 18)%Q)
    by (vm_compute; discriminate).
  split; [split; lra|]. split; intros Hs.
  - assert (H1 := Hm 1%Z d ltac:(lia) ltac:(lia) ltac:(lia)).
    assert (E1 : (2 ^ (- 47) <= F64.div (Duration_Hours 1%Z) 24)%Q)
      by (vm_compute; discriminate).
    lra.
  - assert (H1 := Hm d (- 1)%Z ltac:(lia) ltac:(lia) ltac:(lia)).
    assert (E1 : (F64.div (Duration_Hours (- 1)%Z) 24 <= - 2 ^ (- 47))%Q)
      by (vm_compute; discriminate).
    lra.
Qed.

(** On the sample inputs the rounding of [F64] is the rounding of the
    standard library's IEEE 754 specification at binary64. *)
Example F64_agrees_with_SpecFloat :
  forallb F64Reference.agreeOnDuration F64Reference.sampleDurations = true /\
  forallb F64Reference.agreeOnFraction F64Reference.sampleFractions = true.
Proof. vm_compute. split; reflexivity. Qed.

End GoIntFacts.

(* ===================================================================== *)
(** * Facts: strings and parsers *)
(* ===================================================================== *)

Module GoStringsFacts.
Import GoInt GoStrings.
Local Open Scope string_scope.

Lemma lastByte_cons c s : s <> "" -> lastByte (String c s) = lastByte s.
Proof. destruct s; [congruence | reflexivity]. Qed.

Lemma lastByte_nonempty s c : lastByte s = Some c -> s <> "".
Proof. destruct s; [discriminate | discriminate]. Qed.

Lemma app_cons c (a b : string) : String c a +:+ b = String c (a +:+ b).
Proof. reflexivity. Qed.

Lemma app_nil (b : string) : "" +:+ b = b.
Proof. reflexivity. Qed.

Lemma lastByte_app_d p : lastByte (p +:+ "d") = Some "d"%char.
Proof.
  induction p as [|c p IH]; [reflexivity|].
  rewrite app_cons, lastByte_cons; [exact IH|].
  destruct p; discriminate.
Qed.

(** [s[len(s)-1]] is the last byte. *)
Lemma get_last s : s <> "" -> String.get (String.length s - 1) s = lastByte s.
Proof.
  induction s as [|c s IH]; [congruence|]; intros _.
  destruct s as [|c' s']; [reflexivity|].
  cbn [String.length]. rewrite Nat.sub_succ, Nat.sub_0_r.
  cbn [String.get]. rewrite lastByte_cons by discriminate.
  rewrite <- IH by discriminate.
  cbn [String.length]. now rewrite Nat.sub_succ, Nat.sub_0_r.
Qed.

Lemma length_app (a b : string) :
  String.length (a +:+ b) = (String.length a + String.length b)%nat.
Proof. induction a; rewrite ?app_cons, ?app_nil; cbn; [reflexivity | now rewrite IHa]. Qed.

Lemma substring_prefix (a b : string) :
  substring 0 (String.length a) (a +:+ b) = a.
Proof.
  induction a; rewrite ?app_cons, ?app_nil; cbn; [now destruct b | now rewrite IHa].
Qed.

Lemma substring_suffix (a b : string) :
  substring (String.length a) (String.length b) (a +:+ b) = b.
Proof.
  induction a; rewrite ?app_cons, ?app_nil; cbn; [|exact IHa].
  induction b; cbn; [reflexivity | now rewrite IHb].
Qed.

(** Trimming the suffix "d" of [p ++ "d"] gives back [p]. *)
Lemma TrimSuffix_app_d p : strings_TrimSuffix (p +:+ "d") "d" = p.
Proof.
  unfold strings_TrimSuffix, strings_HasSuffix.
  rewrite length_app. cbn [String.length].
  replace (String.length p + 1 - 1)%nat with (String.length p) by lia.
  pose proof (substring_suffix p "d") as Hs. cbn [String.length] in Hs. rewrite Hs.
  pose proof (substring_prefix p "d") as Hp. rewrite Hp.
  replace (1 <=? String.length p + 1)%nat with true
    by (symmetry; apply Nat.leb_le; lia).
  reflexivity.
Qed.

Lemma lastByte_None s : lastByte s = None -> s = "".
Proof.
  induction s as [|a s IH]; [reflexivity|].
  destruct s as [|b s']; [discriminate|].
  rewrite lastByte_cons by discriminate. intros H. now apply IH in H.
Qed.

Lemma app_d_inj (p q : string) : p +:+ "d" = q +:+ "d" -> p = q.
Proof.
  intros H. rewrite <- (TrimSuffix_app_d p), <- (TrimSuffix_app_d q). now rewrite H.
Qed.

Lemma app_d_nonempty (p : string) : p +:+ "d" <> "".
Proof. destruct p; discriminate. Qed.

(** A string whose last byte is [c] is some [p] followed by [c]. *)
Lemma lastByte_split s c : lastByte s = Some c -> exists p, s = p +:+ String c "".
Proof.
  induction s as [|a s IH]; [discriminate|].
  destruct s as [|b s'].
  - intros [= <-]. now exists "".
  - rewrite lastByte_cons by discriminate. intros H.
    destruct (IH H) as [p Hp]. exists (String a p). now rewrite app_cons, <- Hp.
Qed.

(** ** [time.ParseDuration] knows no unit ending in "d" *)

Lemma isDigit_d : isDigit "d" = false.
Proof. reflexivity. Qed.

Lemma leadingInt_last c x s v rest :
  isDigit c = false -> lastByte s = Some c ->
  leadingInt x s = Some (v, rest) -> lastByte rest = Some c.
Proof.
  intros Hc. revert x. induction s as [|a s IH]; intros x Hl H; [discriminate|].
  cbn [leadingInt] in H.
  destruct (isDigit a) eqn:Ha.
  - destruct s as [|b s'].
    + cbn in Hl. congruence.
    + rewrite lastByte_cons in Hl by discriminate.
      destruct (2 ^ 63 / 10 <? x)%Z; [discriminate|].
      destruct (2 ^ 63 <? x * 10 + digitVal a)%Z; [discriminate|].
      eapply IH; eauto.
  - now inversion H; subst.
Qed.

Lemma leadingFraction_last c x scale o s :
  isDigit c = false -> lastByte s = Some c ->
  lastByte (snd (leadingFraction x scale o s)) = Some c.
Proof.
  intros Hc. revert x scale o. induction s as [|a s IH]; intros x scale o Hl; [discriminate|].
  cbn [leadingFraction].
  destruct (isDigit a) eqn:Ha; [|exact Hl].
  destruct s as [|b s'].
  - cbn in Hl. congruence.
  - rewrite lastByte_cons in Hl by discriminate.
    destruct o; [now apply IH|].
    destruct ((2 ^ 63 - 1) / 10 <? x)%Z; [now apply IH|].
    destruct (2 ^ 63 <? x * 10 + digitVal a)%Z; now apply IH.
Qed.

Lemma unitSpan_last s :
  lastByte s = Some "d"%char ->
  (snd (unitSpan s) = "" /\ lastByte (fst (unitSpan s)) = Some "d"%char) \/
  lastByte (snd (unitSpan s)) = Some "d"%char.
Proof.
  induction s as [|a s IH]; intros Hl; [discriminate|].
  cbn [unitSpan].
  destruct (Ascii.eqb a "." || isDigit a) eqn:Ha; [right; exact Hl|].
  destruct s as [|b s'].
  - left. cbn. split; [reflexivity | exact Hl].
  - rewrite lastByte_cons in Hl by discriminate.
    specialize (IH Hl). destruct (unitSpan (String b s')) as [u rest] eqn:Hu.
    cbn [fst snd] in *. destruct IH as [[H1 H2] | H]; [left | right; exact H].
    split; [exact H1|]. rewrite lastByte_cons; [exact H2|].
    now apply lastByte_nonempty in H2.
Qed.

Lemma unitMap_d u : lastByte u = Some "d"%char -> unitMap u = None.
Proof.
  intros Hl. unfold unitMap.
  repeat match goal with
  | |- context [String.eqb u ?k] =>
      destruct (String.eqb_spec u k) as [-> | _]; [cbn in Hl; discriminate|]
  end.
  reflexivity.
Qed.

Lemma parseTerm_last s v rest :
  lastByte s = Some "d"%char -> parseTerm s = Some (v, rest) ->
  lastByte rest = Some "d"%char.
Proof.
  intros Hl H. unfold parseTerm in H.
  destruct s as [|c s0] eqn:Hs; [discriminate|]. rewrite <- Hs in *.
  destruct (negb (Ascii.eqb c "." || isDigit c)); [discriminate|].
  destruct (leadingInt 0 s) as [[v0 s1]|] eqn:Hli; [|discriminate].
  pose proof (leadingInt_last _ _ _ _ _ isDigit_d Hl Hli) as Hl1.
  assert (Hl2 : forall f scale s2 post,
    match s1 with
    | String "."%char r =>
        let '(f, scale, s2) := leadingFraction 0 1%Q false r in
        (f, scale, s2, negb (String.length r =? String.length s2)%nat)
    | _ => (0%Z, 1%Q, s1, false)
    end = (f, scale, s2, post) -> lastByte s2 = Some "d"%char).
  { intros f scale s2 post Hm.
    destruct s1 as [|a r]; [discriminate|].
    assert (Hdefault : (0%Z, 1%Q, String a r, false) = (f, scale, s2, post) ->
                       lastByte s2 = Some "d"%char) by (intros [= <- <- <- <-]; exact Hl1).
    destruct a as [[] [] [] [] [] [] [] []]; try (now apply Hdefault).
    destruct r as [|b r']; [cbn in Hl1; discriminate|].
    rewrite lastByte_cons in Hl1 by discriminate.
    pose proof (leadingFraction_last _ 0%Z 1%Q false _ isDigit_d Hl1) as Hf.
    destruct (leadingFraction 0 1%Q false (String b r')) as [[f' sc'] s2'].
    cbn [snd] in Hf. now inversion Hm; subst. }
  destruct (match s1 with
            | String "."%char r =>
                let '(f, scale, s2) := leadingFraction 0 1%Q false r in
                (f, scale, s2, negb (String.length r =? String.length s2)%nat)
            | _ => (0%Z, 1%Q, s1, false)
            end) as [[[f scale] s2] post] eqn:Hm.
  specialize (Hl2 _ _ _ _ eq_refl).
  destruct (negb (negb (String.length s =? String.length s1)%nat) && negb post);
    [discriminate|].
  pose proof (unitSpan_last s2 Hl2) as Hu.
  destruct (unitSpan s2) as [u s3]. cbn [fst snd] in Hu.
  destruct (String.length u =? 0)%nat; [discriminate|].
  destruct Hu as [[_ Hud] | Hrest].
  - rewrite (unitMap_d u Hud) in H. discriminate.
  - destruct (unitMap u) as [unit|]; [|discriminate].
    destruct (2 ^ 63 / unit <? v0)%Z; [discriminate|].
    destruct (0 <? f)%Z.
    + match type of H with (if ?b then _ else _) = _ => destruct b end;
        [discriminate|]. now inversion H; subst.
    + now inversion H; subst.
Qed.

Lemma parseTerms_last fuel d s :
  lastByte s = Some "d"%char -> parseTerms fuel d s = None.
Proof.
  revert d s. induction fuel as [|fuel IH]; intros d s Hl.
  - destruct s; [discriminate | reflexivity].
  - destruct s as [|c s0] eqn:Hs; [discriminate|]. rewrite <- Hs in *.
    assert (Hunf : parseTerms (S fuel) d s =
                   match parseTerm s with
                   | None => None
                   | Some (v, rest) =>
                       let d' := wrapU64 (d + v) in
                       if (2 ^ 63 <? d')%Z then None else parseTerms fuel d' rest
                   end) by (rewrite Hs; reflexivity).
    rewrite Hunf. destruct (parseTerm s) as [[v rest]|] eqn:Hp; [|reflexivity].
    cbv zeta. destruct (2 ^ 63 <? wrapU64 (d + v))%Z; [reflexivity|].
    apply IH. eapply parseTerm_last; eauto.
Qed.

(** No duration of the standard grammar ends in "d". *)
Lemma time_ParseDuration_d s :
  lastByte s = Some "d"%char -> time_ParseDuration s = None.
Proof.
  intros Hl. unfold time_ParseDuration.
  assert (Hgen : forall (neg : bool) (s1 : string), lastByte s1 = Some "d"%char ->
    (if String.eqb s1 "0" then Some 0%Z
     else if String.eqb s1 "" then None
     else match parseTerms (String.length s1) 0 s1 with
          | None => None
          | Some d => if neg then Some (wrap64 (- wrap64 d))
                      else if (MaxInt64 <? d)%Z then None else Some d
          end) = None).
  { intros neg s1 H1.
    destruct (String.eqb_spec s1 "0") as [-> | _]; [discriminate|].
    destruct (String.eqb_spec s1 "") as [-> | _]; [discriminate|].
    now rewrite parseTerms_last. }
  destruct s as [|a r]; [discriminate|].
  assert (Hr : String a r = "-" +:+ r \/ String a r = "+" +:+ r -> lastByte r = Some "d"%char).
  { intros [[= ->] | [= ->]];
      (destruct r as [|b r']; [discriminate Hl|];
       rewrite lastByte_cons in Hl by discriminate; exact Hl). }
  destruct a as [[] [] [] [] [] [] [] []];
    first [ exact (Hgen false _ Hl)
          | exact (Hgen true r (Hr (or_introl eq_refl)))
          | exact (Hgen false r (Hr (or_intror eq_refl))) ].
Qed.

(** ** [time.Parse] accepts nothing but the shape of its layout *)

Lemma getyear_inv s year rest :
  getyear s = Some (year, rest) ->
  exists a b c d, s = String a (String b (String c (String d rest))) /\
    isDigit a = true /\ isDigit b = true /\ isDigit c = true /\ isDigit d = true.
Proof.
  unfold getyear. destruct s as [|a [|b [|c [|d r]]]]; try discriminate.
  destruct (isDigit a) eqn:Ha, (isDigit b) eqn:Hb, (isDigit c) eqn:Hc,
    (isDigit d) eqn:Hd; try discriminate.
  intros [= _ <-]. exists a, b, c, d. repeat split; assumption.
Qed.

Lemma getnum2_inv s n rest :
  getnum2 s = Some (n, rest) ->
  exists a b, s = String a (String b rest) /\ isDigit a = true /\ isDigit b = true.
Proof.
  unfold getnum2. destruct s as [|a [|b r]]; try discriminate.
  destruct (isDigit a) eqn:Ha, (isDigit b) eqn:Hb; try discriminate.
  intros [= _ <-]. exists a, b. repeat split; assumption.
Qed.

Lemma skipDash_inv s rest :
  skipDash s = Some rest -> exists c, s = String c rest /\ Ascii.eqb c "-" = true.
Proof.
  unfold skipDash. destruct s as [|c r]; [discriminate|].
  destruct (Ascii.eqb c "-") eqn:Hc; [|discriminate].
  intros [= <-]. eauto.
Qed.

(** A value [time.Parse] accepts at the layout "2006-01-02" has the shape
    of the layout; anything else is an error. *)
Lemma time_Parse_DateOnly_shape value :
  isDateShaped value = false -> time_Parse_DateOnly value = None.
Proof.
  intros Hshape. unfold time_Parse_DateOnly.
  destruct (getyear value) as [[year v1]|] eqn:Hy; [|reflexivity].
  destruct (skipDash v1) as [v2|] eqn:Hd1; [|reflexivity].
  destruct (getnum2 v2) as [[month v3]|] eqn:Hm; [|reflexivity].
  destruct ((month <=? 0)%Z || (12 <? month)%Z); [reflexivity|].
  destruct (skipDash v3) as [v4|] eqn:Hd2; [|reflexivity].
  destruct (getnum2 v4) as [[day v5]|] eqn:Hd; [|reflexivity].
  destruct (String.length v5 =? 0)%nat eqn:Hlen; [|reflexivity].
  exfalso.
  apply getyear_inv in Hy as (y1 & y2 & y3 & y4 & -> & Hy1 & Hy2 & Hy3 & Hy4).
  apply skipDash_inv in Hd1 as (s1 & -> & Hs1).
  apply getnum2_inv in Hm as (m1 & m2 & -> & Hm1 & Hm2).
  apply skipDash_inv in Hd2 as (s2 & -> & Hs2).
  apply getnum2_inv in Hd as (d1 & d2 & -> & Hdd1 & Hdd2).
  destruct v5; [|discriminate].
  cbn in Hshape. rewrite Hy1, Hy2, Hy3, Hy4, Hs1, Hm1, Hm2, Hs2, Hdd1, Hdd2 in Hshape.
  discriminate.
Qed.

End GoStringsFacts.

(* ===================================================================== *)
(** * Facts: the work queue of the specification *)
(* ===================================================================== *)

Module WorkqueueFacts.
Import GoInt Workqueue.
Local Open Scope string_scope.
#[local] Set Warnings "-clear-no-such-hyp".

(** ** The invariant holds from the start and is kept by every operation *)





Lemma wf_addRateLimited key q : spec_wf q -> spec_wf (spec_addRateLimited key q).
Proof. intros H. exact H. Qed.

Lemma wf_forget key q : spec_wf q -> spec_wf (spec_forget key q).
Proof. intros H. exact H. Qed.

Lemma wf_shutdown q : spec_wf q -> spec_wf (spec_shutdown q).
Proof. intros H. exact H. Qed.




(** ** Adding a key *)









(** ** Draining *)









End WorkqueueFacts.

(* ===================================================================== *)
(** * Facts: the controller *)
(* ===================================================================== *)

Module ControllerFacts.
Import GoInt GoStrings K8s Workqueue Controller.
Import F64Facts GoIntFacts GoStringsFacts.
Local Open Scope string_scope.
Local Open Scope Z_scope.

(** ** parseDuration *)

(** On [p ++ "d"] with [p] not empty, [parseDuration] takes the days
    branch: the result is decided by [strconv.Atoi p] alone. *)
Lemma parseDuration_days p :
  p <> "" ->
  parseDuration (p +:+ "d") =
    match strconv_Atoi p with
    | Some days => Some (wrap64 (wrap64 (days * 24) * Hour))
    | None => None
    end.
Proof.
  intros Hp. unfold parseDuration.
  assert (Hlen : (1 <? String.length (p +:+ "d"))%nat = true).
  { apply Nat.ltb_lt. rewrite length_app. destruct p; [congruence|]. cbn. lia. }
  rewrite Hlen, get_last, lastByte_app_d by (destruct p; discriminate).
  rewrite bool_decide_eq_true_2 by reflexivity.
  cbn [andb]. now rewrite TrimSuffix_app_d.
Qed.

(** Everywhere else [parseDuration] is [time.ParseDuration]. *)
Lemma parseDuration_other s :
  (forall p, p <> "" -> s <> p +:+ "d") ->
  parseDuration s = time_ParseDuration s.
Proof.
  intros Hs. unfold parseDuration.
  destruct (1 <? String.length s)%nat eqn:Hlen; [|reflexivity].
  destruct (bool_decide_reflect
              (String.get (String.length s - 1) s = Some "d"%char)) as [Hd | Hd];
    [|reflexivity].
  exfalso. apply Nat.ltb_lt in Hlen.
  rewrite get_last in Hd by (destruct s; [cbn in Hlen; lia | discriminate]).
  destruct (lastByte_split _ _ Hd) as [p ->].
  apply (Hs p); [|reflexivity].
  intros ->. rewrite app_nil in Hlen. cbn in Hlen. lia.
Qed.

(** Within 106751 days either way the product does not wrap. *)
Lemma days_product_exact days :
  - 106751 <= days <= 106751 -> wrap64 (wrap64 (days * 24) * Hour) = days * Day.
Proof.
  intros Hr. unfold wrap64, Day.
  assert (HH : Hour = 3600000000000) by reflexivity. rewrite HH.
  rewrite (Z.mod_small (days * 24 + 2 ^ 63)) by lia.
  rewrite Z.mod_small by lia. lia.
Qed.

(** [parseDuration] fails exactly when the string is neither an integer
    followed by "d" nor a duration of the standard grammar. *)
Lemma parseDuration_None_iff s :
  parseDuration s = None <->
  (forall p, s = p +:+ "d" -> strconv_Atoi p = None) /\ time_ParseDuration s = None.
Proof.
  destruct (lastByte s) as [c|] eqn:Hl.
  2:{ apply lastByte_None in Hl. subst s.
      split; [intros _; split; [|reflexivity] | reflexivity].
      intros p Hp. symmetry in Hp. now apply app_d_nonempty in Hp. }
  destruct (lastByte_split _ _ Hl) as [p Hp].
  destruct (Ascii.eqb_spec c "d"%char) as [-> | Hc].
  - subst s. pose proof (time_ParseDuration_d _ Hl) as Hstd.
    destruct p as [|a p'].
    + (* the one-byte string "d" *)
      split; [intros _; split; [|reflexivity] | reflexivity].
      intros q Hq. apply app_d_inj in Hq. now subst q.
    + rewrite parseDuration_days by discriminate. rewrite Hstd.
      split.
      * intros H. split; [|reflexivity]. intros q Hq.
        apply app_d_inj in Hq. subst q.
        destruct (strconv_Atoi (String a p')); [discriminate | reflexivity].
      * intros [H _]. now rewrite (H _ eq_refl).
  - rewrite parseDuration_other.
    + split; [intros H; split; [|exact H] | now intros [_ H]].
      intros q Hq. exfalso. rewrite Hq, lastByte_app_d in Hl. congruence.
    + intros q _ Hq. rewrite Hq, lastByte_app_d in Hl. congruence.
Qed.

(** Unfold the primitive effects down to functions of the world. *)
Ltac unfold_effects :=
  unfold bind, ret, store_GetByKey, klog_Infof, klog_Warningf, klog_Errorf,
         klog_V2_Infof, klog_emit, recorder_Eventf, workqueue_Add, workqueue_Done,
         workqueue_Forget, workqueue_AddRateLimited, queue_call.

Section WithQueue.
Context {Q : Type} `{!TypedRateLimitingInterface Q}.

(** The world after one reading of the clock. *)
Local Abbreviation tick w :=
  (mkWorld (clock w) (S (ticks w)) (store w) (workqueue w) (qcalls w) (klog w) (events w)).

(** The lead time [parseSecretInfo] settles on. *)
Local Abbreviation leadTime secret :=
  (match corev1.Annotations secret !! AnnotationWarnBefore with
   | Some warnStr =>
       match parseDuration warnStr with
       | Some parsed => parsed
       | None => 7 * 24 * Hour
       end
   | None => 7 * 24 * Hour
   end).

Lemma parseSecretInfo_untracked secret (w : World Q) :
  tracked secret = false -> parseSecretInfo secret w = ((SecretInfo_zero, false), w).
Proof.
  unfold tracked, parseSecretInfo. intros H.
  destruct (corev1.Annotations secret !! AnnotationExpiresAt) as [v|]; [|reflexivity].
  destruct (time_Parse_DateOnly v); [discriminate | reflexivity].
Qed.

Lemma parseSecretInfo_tracked secret (w : World Q) v expTime :
  corev1.Annotations secret !! AnnotationExpiresAt = Some v ->
  time_Parse_DateOnly v = Some expTime ->
  parseSecretInfo secret w =
    ((mkSecretInfo (corev1.Name secret) (corev1.Namespace secret) expTime
        (leadTime secret)
        (F64.to_int (F64.div (Duration_Hours (Time_Sub expTime (clock w (ticks w)))) 24%Q)),
      true), tick w).
Proof. intros Hv Hp. unfold parseSecretInfo. rewrite Hv, Hp. reflexivity. Qed.

Lemma tracked_inv secret :
  tracked secret = true ->
  exists v expTime, corev1.Annotations secret !! AnnotationExpiresAt = Some v /\
                    time_Parse_DateOnly v = Some expTime.
Proof.
  unfold tracked. destruct (corev1.Annotations secret !! AnnotationExpiresAt) as [v|];
    [|discriminate].
  destruct (time_Parse_DateOnly v) as [t|] eqn:Hp; [|discriminate].
  intros _. exists v, t. split; [reflexivity | exact Hp].
Qed.

(** The second result of [parseSecretInfo] is the tracked-ness, and the
    call leaves the world alone apart from reading the clock. *)
Lemma parseSecretInfo_result secret (w : World Q) :
  exists info,
    parseSecretInfo secret w = ((info, tracked secret), if tracked secret then tick w else w).
Proof.
  destruct (tracked secret) eqn:Ht.
  - destruct (tracked_inv _ Ht) as (v & t & Hv & Hp).
    rewrite (parseSecretInfo_tracked _ _ _ _ Hv Hp). eauto.
  - rewrite (parseSecretInfo_untracked _ _ Ht). eauto.
Qed.

(** ** Classification *)

(** The threshold in whole days, [int(info.WarnBefore.Hours() / 24)]. *)
Local Abbreviation warnThresholdDays info :=
  (F64.to_int (F64.div (Duration_Hours (WarnBefore info)) 24%Q)).

(** C1.  [emitExpirationEvent] hands exactly one event to the recorder,
    on the secret itself.  With [d] the day count of the verdict and
    [w] the warning threshold in whole days, its reason is
    ["SecretExpired"] exactly when [d < 0], ["SecretExpiringSoon"] exactly
    when [0 <= d <= w], and ["SecretValid"] otherwise; the three reasons
    exclude one another and nothing else is emitted. *)
Theorem emitExpirationEvent_classification
    (secret : corev1.Secret) (info : SecretInfo) (w : World Q) :
  let d := DaysUntilExp info in
  let wd := warnThresholdDays info in
  exists ev,
    events (snd (emitExpirationEvent secret info w)) = (events w ++ [ev])%list /\
    regarding ev = secret /\
    (reason ev = "SecretExpired" <-> d < 0) /\
    (reason ev = "SecretExpiringSoon" <-> 0 <= d <= wd) /\
    (reason ev = "SecretValid" <-> ~ d < 0 /\ ~ 0 <= d <= wd) /\
    (reason ev = "SecretExpired" \/ reason ev = "SecretExpiringSoon" \/
     reason ev = "SecretValid") /\
    (eventType ev = corev1.EventTypeNormal <-> reason ev = "SecretValid").
Proof.
  intros d wd. unfold emitExpirationEvent. fold d. fold wd.
  destruct (Z.ltb_spec d 0) as [Hneg | Hnn].
  - eexists. split; [reflexivity|]. cbn.
    repeat split; try (intros; discriminate); try (intros; lia); auto.
  - destruct (Z.leb_spec d wd) as [Hle | Hgt].
    + eexists. split; [reflexivity|]. cbn.
      repeat split; try (intros; discriminate); try (intros; lia); auto.
    + eexists. split; [reflexivity|]. cbn.
      repeat split; try (intros; discriminate); try (intros; lia); auto.
Qed.

(** [emitExpirationEvent] touches neither the queue nor the clock. *)
Lemma emitExpirationEvent_frame (secret : corev1.Secret) (info : SecretInfo) (w : World Q) :
  let w' := snd (emitExpirationEvent secret info w) in
  qcalls w' = qcalls w /\ workqueue w' = workqueue w /\ ticks w' = ticks w /\
  store w' = store w /\ clock w' = clock w.
Proof.
  unfold emitExpirationEvent.
  destruct (DaysUntilExp info <? 0); [cbn; auto|].
  destruct (DaysUntilExp info <=? _); cbn; auto.
Qed.

(** ** The day count *)

Lemma Time_Sub_range (t u : Time) : MinInt64 <= Time_Sub t u <= MaxInt64.
Proof. unfold Time_Sub, MinInt64, MaxInt64. lia. Qed.

(** C2, as the code has it.  For a secret whose expiration annotation
    parses to the instant [expTime], looked at when the clock reads [now],
    the day count is [int(expTime.Sub(now).Hours() / 24)]: the quotient
    of the hours by 24 in float64, truncated toward zero and not floored.
    It is negative exactly when [now] is at least 24 hours after
    [expTime]; it is 0 whenever [now] is less than 24 hours away from
    [expTime], on either side; it is [k] when the difference is [k] whole
    days; in general it is the exact quotient truncated toward zero, or one
    step further from zero. *)
Theorem parseSecretInfo_day_count
    (secret : corev1.Secret) (w : World Q) (v : string) (expTime : Time) :
  corev1.Annotations secret !! AnnotationExpiresAt = Some v ->
  time_Parse_DateOnly v = Some expTime ->
  let now := clock w (ticks w) in
  let delta := Time_Sub expTime now in
  let info := fst (fst (parseSecretInfo secret w)) in
  snd (fst (parseSecretInfo secret w)) = true /\
  ExpiresAt info = expTime /\
  DaysUntilExp info = F64.to_int (F64.div (Duration_Hours delta) 24%Q) /\
  (DaysUntilExp info < 0 <-> expTime + Day <= now) /\
  (now - Day < expTime < now + Day -> DaysUntilExp info = 0) /\
  (forall k, delta = k * Day -> DaysUntilExp info = k) /\
  (now <= expTime -> Z.quot delta Day <= DaysUntilExp info <= Z.quot delta Day + 1) /\
  (expTime <= now -> Z.quot delta Day - 1 <= DaysUntilExp info <= Z.quot delta Day).
Proof.
  intros Hv Hp now delta info. subst info.
  rewrite (parseSecretInfo_tracked _ _ _ _ Hv Hp). cbn [fst snd ExpiresAt DaysUntilExp].
  fold now. fold delta.
  pose proof (Time_Sub_range expTime now) as Hr. fold delta in Hr.
  assert (HD : Day = 86400000000000) by reflexivity.
  assert (Hdelta : delta = Z.max MinInt64 (Z.min MaxInt64 (expTime - now))) by reflexivity.
  assert (HMin : MinInt64 = - 9223372036854775808) by reflexivity.
  assert (HMax : MaxInt64 = 9223372036854775807) by reflexivity.
  split; [reflexivity|]. split; [reflexivity|]. split; [reflexivity|].
  split; [|split; [|split; [|split]]].
  - rewrite (days_neg_iff delta Hr). lia.
  - intros Hnear. apply days_zero. lia.
  - intros k Hk. rewrite Hk. apply days_exact. rewrite <- Hk. exact Hr.
  - intros Hle. apply (days_near_quot delta Hr). lia.
  - intros Hle. apply (days_near_quot delta Hr). lia.
Qed.

(** ** The lead time *)

(** What [parseSecretInfo] makes of the lead-time annotation of a tracked
    secret: the duration [parseDuration] returns, and seven days when the
    annotation is absent or [parseDuration] fails; the secret is tracked
    either way.  An integer of at most 106751 days in magnitude followed by
    "d" is that many days of 24 hours; a string that is not of that form
    goes through [time.ParseDuration]. *)
Lemma parseSecretInfo_lead_time (secret : corev1.Secret) (w : World Q) :
  tracked secret = true ->
  let info := fst (fst (parseSecretInfo secret w)) in
  snd (fst (parseSecretInfo secret w)) = true /\
  match corev1.Annotations secret !! AnnotationWarnBefore with
  | None => WarnBefore info = 7 * Day
  | Some s =>
      (parseDuration s = None -> WarnBefore info = 7 * Day) /\
      (forall d, parseDuration s = Some d -> WarnBefore info = d) /\
      (forall p days, s = p +:+ "d" -> p <> "" -> strconv_Atoi p = Some days ->
         - 106751 <= days <= 106751 -> WarnBefore info = days * Day) /\
      ((forall p, p <> "" -> s <> p +:+ "d") ->
         forall d, time_ParseDuration s = Some d -> WarnBefore info = d)
  end.
Proof.
  intros Ht info. subst info.
  destruct (tracked_inv _ Ht) as (v & t & Hv & Hp).
  rewrite (parseSecretInfo_tracked _ _ _ _ Hv Hp). cbn [fst snd WarnBefore].
  split; [reflexivity|].
  destruct (corev1.Annotations secret !! AnnotationWarnBefore) as [s|]; [|reflexivity].
  split; [intros ->; reflexivity|].
  split; [intros d ->; reflexivity|].
  split.
  - intros p days -> Hne Ha Hr. rewrite parseDuration_days, Ha by assumption.
    now apply days_product_exact.
  - intros Hs d Hd. now rewrite parseDuration_other, Hd.
Qed.

(** ** The update and add handlers *)

(** C4.  When the old and the new secret have the same resource version,
    [handleUpdate] returns at once: nothing is enqueued and the whole world,
    the work queue included, is as before, whatever the annotations. *)
Theorem handleUpdate_same_version (oldSecret newSecret : corev1.Secret) (w : World Q) :
  corev1.ResourceVersion oldSecret = corev1.ResourceVersion newSecret ->
  handleUpdate (ObjSecret oldSecret) (ObjSecret newSecret) w = (tt, w).
Proof.
  intros Hrv. unfold handleUpdate. rewrite Hrv, String.eqb_refl. reflexivity.
Qed.

(** C5.  When the resource versions differ, [handleUpdate] calls
    [Add] on the key of the new object exactly when the old or the new
    secret is tracked; when neither is, the queue is not called at all. *)
Theorem handleUpdate_enqueue_iff (oldSecret newSecret : corev1.Secret) (w : World Q) :
  corev1.ResourceVersion oldSecret <> corev1.ResourceVersion newSecret ->
  let key := ObjectName_String (corev1.Namespace newSecret) (corev1.Name newSecret) in
  let w' := snd (handleUpdate (ObjSecret oldSecret) (ObjSecret newSecret) w) in
  (tracked oldSecret || tracked newSecret = true ->
     qcalls w' = (qcalls w ++ [CallAdd key])%list /\
     workqueue w' = Add key (workqueue w)) /\
  (tracked oldSecret || tracked newSecret = false ->
     qcalls w' = qcalls w /\ workqueue w' = workqueue w) /\
  (In (CallAdd key) (skipn (List.length (qcalls w)) (qcalls w')) <->
     tracked oldSecret || tracked newSecret = true).
Proof.
  intros Hrv key w'. subst w'. unfold handleUpdate.
  destruct (String.eqb_spec (corev1.ResourceVersion oldSecret)
                            (corev1.ResourceVersion newSecret)) as [Heq | _];
    [contradiction|].
  cbn [MetaNamespaceKeyFunc]. fold key. unfold bind.
  destruct (parseSecretInfo_result oldSecret w) as [io Ho]. rewrite Ho.
  destruct (parseSecretInfo_result newSecret
              (if tracked oldSecret then tick w else w)) as [inw Hn]. rewrite Hn.
  cbn [snd].
  assert (Hskip : forall (l : list QueueCall) c,
            skipn (List.length l) (l ++ [c])%list = [c]).
  { intros l c. induction l; [reflexivity | exact IHl]. }
  assert (Hskip0 : forall (l : list QueueCall), skipn (List.length l) l = []).
  { intros l. induction l; [reflexivity | exact IHl]. }
  destruct (tracked oldSecret), (tracked newSecret); cbn;
    rewrite ?Hskip, ?Hskip0; cbn; intuition (try discriminate; auto).
Qed.

(** An update notification that does not carry two secrets is dropped. *)
Lemma handleUpdate_not_secrets (oldObj newObj : Object) (w : World Q) :
  (forall s, oldObj <> ObjSecret s) \/ (forall s, newObj <> ObjSecret s) ->
  handleUpdate oldObj newObj w = (tt, w).
Proof.
  intros [H | H]; unfold handleUpdate.
  - destruct oldObj as [s | | |]; [now destruct (H s) | reflexivity..].
  - destruct oldObj as [so | | |]; [|reflexivity..].
    destruct newObj as [s | | |]; [now destruct (H s) | reflexivity..].
Qed.

(** [handleAdd] on a tracked secret: one call of [Add] on its key. *)
Lemma handleAdd_tracked (secret : corev1.Secret) (w : World Q) :
  tracked secret = true ->
  let key := ObjectName_String (corev1.Namespace secret) (corev1.Name secret) in
  let w' := snd (handleAdd (ObjSecret secret) w) in
  qcalls w' = (qcalls w ++ [CallAdd key])%list /\ workqueue w' = Add key (workqueue w).
Proof.
  intros Ht key w'. subst w'. unfold handleAdd. cbn [MetaNamespaceKeyFunc]. fold key.
  unfold bind. destruct (parseSecretInfo_result secret w) as [info Hr].
  rewrite Hr, Ht. cbn. auto.
Qed.

(** [handleAdd] on anything that is not a secret makes no queue call. *)
Lemma handleAdd_not_secret (obj : Object) (w : World Q) :
  (forall s, obj <> ObjSecret s) ->
  qcalls (snd (handleAdd obj w)) = qcalls w /\
  workqueue (snd (handleAdd obj w)) = workqueue w.
Proof.
  intros H. unfold handleAdd.
  destruct obj as [s | k o | k | t [[ns n]|]]; [now destruct (H s) | cbn; auto..].
Qed.

(** ** The reconciler and the worker pass *)

(** The event of [emitExpirationEvent], for the proofs below. *)
Lemma emitExpirationEvent_event (secret : corev1.Secret) (info : SecretInfo) (w : World Q) :
  exists ev,
    events (snd (emitExpirationEvent secret info w)) = (events w ++ [ev])%list /\
    regarding ev = secret /\
    (reason ev = "SecretExpired" \/ reason ev = "SecretExpiringSoon" \/
     reason ev = "SecretValid").
Proof.
  unfold emitExpirationEvent.
  destruct (DaysUntilExp info <? 0); [eexists; cbn; eauto|].
  destruct (DaysUntilExp info <=? _); eexists; cbn; eauto 6.
Qed.

(** The world right after [Get] handed out a key. *)
Local Abbreviation afterGet w q1 :=
  (mkWorld (clock w) (ticks w) (store w) q1 (app (qcalls w) [CallGet]) (klog w) (events w)).

(** [reconcile] never calls the queue. *)
Lemma reconcile_frame (key : string) (w : World Q) :
  qcalls (snd (reconcile key w)) = qcalls w /\
  workqueue (snd (reconcile key w)) = workqueue w.
Proof.
  unfold reconcile. unfold_effects.
  destruct (SplitMetaNamespaceKey key) as [[namespace name]|]; [|cbn; auto].
  destruct (store w key) as [err | | obj].
  - cbn; auto.
  - cbn; auto.
  - destruct obj as [secret | ? ? | ? | ? ?]; [|cbn; auto..].
    destruct (parseSecretInfo_result secret w) as [info Hr]. rewrite Hr.
    destruct (tracked secret); [|cbn; auto].
    cbn [negb].
    match goal with
    | |- context [emitExpirationEvent secret info ?w0] =>
        pose proof (emitExpirationEvent_frame secret info w0) as (F1 & F2 & _);
        destruct (emitExpirationEvent secret info w0) as [u w2]
    end.
    cbn in *. auto.
Qed.

(** The error of [reconcile], case by case. *)
Lemma reconcile_error (key : string) (w : World Q) :
  fst (reconcile key w) =
    match SplitMetaNamespaceKey key with
    | None => None
    | Some _ =>
        match store w key with
        | StoreError err => Some (ErrFetch key err)
        | StoreMissing => None
        | StoreFound (ObjSecret _) => None
        | StoreFound obj => Some (ErrUnexpectedType (typeOf obj))
        end
    end.
Proof.
  unfold reconcile. unfold_effects.
  destruct (SplitMetaNamespaceKey key) as [[namespace name]|]; [|reflexivity].
  destruct (store w key) as [err | | obj].
  - reflexivity.
  - reflexivity.
  - destruct obj as [secret | ? ? | ? | ? ?]; [|reflexivity..].
    destruct (parseSecretInfo_result secret w) as [info Hr]. rewrite Hr.
    destruct (tracked secret); [|reflexivity].
    cbn [negb].
    match goal with
    | |- context [emitExpirationEvent secret info ?w0] =>
        destruct (emitExpirationEvent secret info w0) as [u w2]
    end.
    reflexivity.
Qed.

(** The events of [reconcile]: one event for a tracked secret found under
    a well-formed key, none otherwise. *)
Lemma reconcile_events (key : string) (w : World Q) :
  match SplitMetaNamespaceKey key, store w key with
  | Some _, StoreFound (ObjSecret secret) =>
      if tracked secret then
        exists ev, events (snd (reconcile key w)) = (events w ++ [ev])%list /\
                   regarding ev = secret /\
                   (reason ev = "SecretExpired" \/ reason ev = "SecretExpiringSoon" \/
                    reason ev = "SecretValid")
      else events (snd (reconcile key w)) = events w
  | _, _ => events (snd (reconcile key w)) = events w
  end.
Proof.
  unfold reconcile. unfold_effects.
  destruct (SplitMetaNamespaceKey key) as [[namespace name]|]; [|reflexivity].
  destruct (store w key) as [err | | obj].
  - reflexivity.
  - reflexivity.
  - destruct obj as [secret | ? ? | ? | ? ?]; [|reflexivity..].
    destruct (parseSecretInfo_result secret w) as [info Hr]. rewrite Hr.
    destruct (tracked secret); [|reflexivity].
    cbn [negb].
    match goal with
    | |- context [emitExpirationEvent secret info ?w0] =>
        destruct (emitExpirationEvent_event secret info w0) as (ev & E1 & E2 & E3);
        destruct (emitExpirationEvent secret info w0) as [u w2]
    end.
    cbn in *. eauto.
Qed.

(** The classification end to end: for a tracked secret found in the
    cache under a well-formed key, [reconcile] emits one event, whose
    reason follows the day count and the lead time [parseSecretInfo]
    computes at that moment. *)
Lemma reconcile_classification (key : string) (secret : corev1.Secret) (w : World Q) :
  SplitMetaNamespaceKey key <> None ->
  store w key = StoreFound (ObjSecret secret) ->
  tracked secret = true ->
  let info := fst (fst (parseSecretInfo secret w)) in
  let d := DaysUntilExp info in
  let wd := warnThresholdDays info in
  exists ev,
    events (snd (reconcile key w)) = (events w ++ [ev])%list /\
    regarding ev = secret /\
    (reason ev = "SecretExpired" <-> d < 0) /\
    (reason ev = "SecretExpiringSoon" <-> 0 <= d <= wd) /\
    (reason ev = "SecretValid" <-> ~ d < 0 /\ ~ 0 <= d <= wd).
Proof.
  intros Hkey Hst Ht info d wd. subst d wd info.
  destruct (tracked_inv _ Ht) as (v & t & Hv & Hp).
  unfold reconcile. unfold_effects.
  destruct (SplitMetaNamespaceKey key) as [[namespace name]|]; [|congruence].
  rewrite Hst, (parseSecretInfo_tracked _ _ _ _ Hv Hp).
  cbn [negb fst snd DaysUntilExp WarnBefore].
  set (info := mkSecretInfo _ _ _ _ _).
  unfold emitExpirationEvent. unfold_effects.
  cbn [DaysUntilExp WarnBefore info].
  set (d := F64.to_int (F64.div (Duration_Hours (Time_Sub t (clock w (ticks w)))) 24%Q)).
  set (wd := F64.to_int (F64.div (Duration_Hours _) 24%Q)).
  destruct (Z.ltb_spec d 0) as [Hneg | Hnn];
    [|destruct (Z.leb_spec d wd) as [Hle | Hgt]];
    (eexists; split; [reflexivity|]; cbn;
     repeat split; try (intros; discriminate); try (intros; lia); auto).
Qed.

(** One worker pass, in terms of [reconcile]. *)
Lemma processNextWorkItem_dequeued (w : World Q) (key : string) (q1 : Q) :
  Get (workqueue w) = GotItem key q1 ->
  let w1 := afterGet w q1 in
  let w2 := snd (reconcile key w1) in
  let w' := snd (processNextWorkItem w) in
  fst (processNextWorkItem w) = Some true /\
  events w' = events w2 /\
  match fst (reconcile key w1) with
  | Some _ =>
      qcalls w' = (qcalls w ++ [CallGet; CallAddRateLimited key; CallDone key])%list /\
      workqueue w' = Done key (AddRateLimited key q1)
  | None =>
      qcalls w' = (qcalls w ++ [CallGet; CallForget key; CallDone key])%list /\
      workqueue w' = Done key (Forget key q1)
  end.
Proof.
  intros HGet w1 w2 w'. subst w' w2. unfold processNextWorkItem. rewrite HGet.
  fold w1.
  unfold_effects.
  pose proof (reconcile_frame key w1) as [F1 F2].
  destruct (reconcile key w1) as [err w2]. cbn [fst snd] in *.
  destruct err as [e|]; cbn; rewrite F1, F2; subst w1; cbn;
    rewrite <- ?app_assoc; cbn; auto.
Qed.



(** ** A malformed expiration date *)

(** The handlers and the reconciler on a secret that is not tracked. *)
Lemma handleAdd_untracked (secret : corev1.Secret) (w : World Q) :
  tracked secret = false -> handleAdd (ObjSecret secret) w = (tt, w).
Proof.
  intros Ht. unfold handleAdd. cbn [MetaNamespaceKeyFunc]. unfold bind.
  rewrite (parseSecretInfo_untracked _ _ Ht). reflexivity.
Qed.

(** C8.  When the expiration annotation of a secret is not a date of the
    layout "2006-01-02" ([time.Parse] returns an error; in particular
    whenever the value does not have the shape of the layout), the secret
    is not tracked: [parseSecretInfo] answers false and leaves the world
    alone, [handleAdd] returns without a call on the queue, and under any
    key where the cache holds that secret [reconcile] returns no error and
    emits nothing, so that the worker pass ends with [Forget] and [Done]
    and never with [AddRateLimited]. *)
Theorem malformed_date_untracked (secret : corev1.Secret) (v : string) (w : World Q) :
  corev1.Annotations secret !! AnnotationExpiresAt = Some v ->
  time_Parse_DateOnly v = None ->
  tracked secret = false /\
  parseSecretInfo secret w = ((SecretInfo_zero, false), w) /\
  handleAdd (ObjSecret secret) w = (tt, w) /\
  (forall key, store w key = StoreFound (ObjSecret secret) ->
     fst (reconcile key w) = None /\
     events (snd (reconcile key w)) = events w /\
     qcalls (snd (reconcile key w)) = qcalls w /\
     workqueue (snd (reconcile key w)) = workqueue w) /\
  (forall key q1, Get (workqueue w) = GotItem key q1 ->
     store w key = StoreFound (ObjSecret secret) ->
     let w' := snd (processNextWorkItem w) in
     qcalls w' = (qcalls w ++ [CallGet; CallForget key; CallDone key])%list /\
     workqueue w' = Done key (Forget key q1) /\
     events w' = events w).
Proof.
  intros Hv Hp.
  assert (Ht : tracked secret = false) by (unfold tracked; now rewrite Hv, Hp).
  split; [exact Ht|].
  split; [now apply parseSecretInfo_untracked|].
  split; [now apply handleAdd_untracked|].
  split.
  - intros key Hst.
    pose proof (reconcile_error key w) as He.
    pose proof (reconcile_events key w) as Hev.
    pose proof (reconcile_frame key w) as [F1 F2].
    rewrite Hst in He, Hev. rewrite Ht in Hev.
    destruct (SplitMetaNamespaceKey key); auto.
  - intros key q1 HGet Hst w'.
    destruct (processNextWorkItem_dequeued w key q1 HGet) as (_ & Hev & Hcalls).
    pose proof (reconcile_error key (afterGet w q1)) as He.
    pose proof (reconcile_events key (afterGet w q1)) as Hevs.
    cbn [store events] in He, Hevs. rewrite Hst in He, Hevs. rewrite Ht in Hevs.
    fold w' in Hev, Hcalls.
    assert (He' : fst (reconcile key (afterGet w q1)) = None)
      by (rewrite He; now destruct (SplitMetaNamespaceKey key)).
    rewrite He' in Hcalls. destruct Hcalls as [C1 C2].
    split; [exact C1|]. split; [exact C2|].
    rewrite Hev. now destruct (SplitMetaNamespaceKey key).
Qed.

(** ** The delete handler *)

(** C9.  Whatever the delete notification carries (the secret itself, a
    tombstone around a secret, a tombstone around something else, or a
    value of another type), [handleDelete] makes no call on the work
    queue: the journal of calls and the queue are as before, and no event
    is recorded.  For a tracked secret, direct or inside a tombstone, the
    only trace is one log line. *)
Theorem handleDelete_never_enqueues (obj : Object) (w : World Q) :
  let w' := snd (handleDelete obj w) in
  qcalls w' = qcalls w /\ workqueue w' = workqueue w /\ events w' = events w /\
  store w' = store w /\
  (forall secret,
     obj = ObjSecret secret \/ (exists key, obj = ObjTombstone key (ObjSecret secret)) ->
     (tracked secret = true ->
        klog w' = (klog w ++ [mkLogLine LvlInfo "DELETE: %s (was tracking expiration)"
                     [ArgStr (ObjectName_String (corev1.Namespace secret)
                                                (corev1.Name secret))]])%list) /\
     (tracked secret = false -> klog w' = klog w)).
Proof.
  assert (Hsecret : forall secret w0,
    let w' := snd ((r <- parseSecretInfo secret ;;
                    if negb (snd r) then ret tt
                    else match MetaNamespaceKeyFunc (ObjSecret secret) with
                         | inr err => klog_Errorf "Error getting key for deleted object: %v"
                                        [ArgErr err]
                         | inl key => klog_Infof "DELETE: %s (was tracking expiration)"
                                        [ArgStr key]
                         end) (w0 : World Q)) in
    qcalls w' = qcalls w0 /\ workqueue w' = workqueue w0 /\ events w' = events w0 /\
    store w' = store w0 /\
    (tracked secret = true ->
       klog w' = (klog w0 ++ [mkLogLine LvlInfo "DELETE: %s (was tracking expiration)"
                    [ArgStr (ObjectName_String (corev1.Namespace secret)
                                               (corev1.Name secret))]])%list) /\
    (tracked secret = false -> klog w' = klog w0)).
  { intros secret w0. unfold bind.
    destruct (parseSecretInfo_result secret w0) as [info Hr]. rewrite Hr.
    destruct (tracked secret); cbn; repeat split; auto; discriminate. }
  destruct obj as [secret | key inner | key | t meta].
  - destruct (Hsecret secret w) as (H1 & H2 & H3 & H4 & H5 & H6).
    split; [exact H1|]. split; [exact H2|]. split; [exact H3|]. split; [exact H4|].
    intros s [[= <-] | [k [=]]]. split; [exact H5 | exact H6].
  - destruct inner as [secret | key' inner' | key' | t meta].
    + destruct (Hsecret secret w) as (H1 & H2 & H3 & H4 & H5 & H6).
      split; [exact H1|]. split; [exact H2|]. split; [exact H3|]. split; [exact H4|].
      intros s [[=] | [k [= _ <-]]]. split; [exact H5 | exact H6].
    + cbn. do 4 (split; [reflexivity|]). intros s [[=] | [k [=]]].
    + cbn. do 4 (split; [reflexivity|]). intros s [[=] | [k [=]]].
    + cbn. do 4 (split; [reflexivity|]). intros s [[=] | [k [=]]].
  - cbn. do 4 (split; [reflexivity|]). intros s [[=] | [k [=]]].
  - cbn. do 4 (split; [reflexivity|]). intros s [[=] | [k [=]]].
Qed.

(** ** What the verdict depends on *)

(** C10.  Two secrets with the same namespace, name and annotations,
    looked at in the same world (so at the same instant), get the same
    answer from [parseSecretInfo]: same verdict, same tracked-ness, same day
    count.  The data, the labels, the type, the resource version and the
    other fields of the secret play no part. *)
Theorem parseSecretInfo_metadata_only (s1 s2 : corev1.Secret) (w : World Q) :
  corev1.Namespace s1 = corev1.Namespace s2 ->
  corev1.Name s1 = corev1.Name s2 ->
  corev1.Annotations s1 = corev1.Annotations s2 ->
  parseSecretInfo s1 w = parseSecretInfo s2 w.
Proof.
  intros Hns Hn Ha. unfold parseSecretInfo. rewrite Hns, Hn, Ha. reflexivity.
Qed.

End WithQueue.

Import Examples.

(** ** The claims on sample inputs *)

(** The scenarios of the specification: 2024-12-31 seen on 2024-12-20 is
    11 days away and valid; seen on 2024-12-27 it is 4 days away and
    expiring soon; seen on 2025-01-05 it expired 5 days ago; with a lead
    time of 3 days, 4 days away is valid. *)
Example scenarios :
  let run (secret : corev1.Secret) (date : string) :=
    let w := worldAt (instant date 0) (storeOf [("default/api-key", ObjSecret secret)])
                     (queueOf ["default/api-key"]) in
    let w' := snd (processNextWorkItem w) in
    (map reason (events w'), map messageArgs (events w')) in
  run apiKey "2024-12-20" =
    (["SecretValid"], [[ArgInt 11; ArgDate 1735603200000000000]]) /\
  run apiKey "2024-12-27" =
    (["SecretExpiringSoon"], [[ArgInt 4; ArgDate 1735603200000000000; ArgInt 7]]) /\
  run apiKey "2025-01-05" =
    (["SecretExpired"], [[ArgInt 5; ArgDate 1735603200000000000]]) /\
  run apiKey3d "2024-12-27" =
    (["SecretValid"], [[ArgInt 4; ArgDate 1735603200000000000]]) /\
  run notADate "2024-12-27" = ([], []) /\
  run apiKeyUntracked "2024-12-27" = ([], []).
Proof. vm_compute. repeat split. Qed.

(** float64 at work: one nanosecond short of 200 days, [Hours] is rounded
    to 4800 and the day count is 200, one more than the exact quotient. *)
Example day_count_rounds_to_next_day :
  Duration_Hours (200 * Day - 1) = 4800%Q /\
  F64.to_int (F64.div (Duration_Hours (200 * Day - 1)) 24%Q) = 200 /\
  Z.quot (200 * Day - 1) Day = 199.
Proof. vm_compute. repeat split. Qed.

(** The lead time on sample values: three days, a duration of the
    standard grammar, and the default of seven days for a value that is
    neither. *)
Example lead_time_samples :
  parseDuration "3d" = Some (3 * Day) /\
  parseDuration "-2d" = Some (- 2 * Day) /\
  parseDuration "24h30m" = Some (24 * Hour + 30 * Minute) /\
  parseDuration "1.5h" = Some (90 * Minute) /\
  parseDuration "d" = None /\
  parseDuration "1.5d" = None /\
  parseDuration "soon" = None /\
  let w := worldAt (instant "2024-12-27" 0) (storeOf []) (queueOf []) in
  fst (parseSecretInfo apiKeyBadLead w) =
    (mkSecretInfo "api-key" "default" 1735603200000000000 (7 * Day) 4, true).
Proof. vm_compute. repeat split. Qed.

(** C2 does not hold as stated.  Twelve hours after the expiration
    instant the difference is -12 hours; divided by 24 and floored this is
    -1, but the day count is 0: it is not the floor and it is not negative,
    although [now] is after the expiration instant. *)
Lemma day_count_is_not_floor :
  let w := worldAt (instant "2024-12-31" 12) (storeOf []) (queueOf []) in
  let now := clock w (ticks w) in
  let info := fst (fst (parseSecretInfo apiKey w)) in
  ExpiresAt info < now /\
  (ExpiresAt info - now) / Hour = - 12 /\
  (ExpiresAt info - now) / Day = - 1 /\
  DaysUntilExp info = 0 /\
  DaysUntilExp info <> (ExpiresAt info - now) / Day /\
  ~ DaysUntilExp info < 0.
Proof. vm_compute. repeat split; discriminate. Qed.

(** The day count of [apiKey], eleven whole days before its expiration. *)
Lemma parseSecretInfo_day_count_witness :
  let w := worldAt (instant "2024-12-20" 0) (storeOf []) (queueOf []) in
  corev1.Annotations apiKey !! AnnotationExpiresAt = Some "2024-12-31" /\
  time_Parse_DateOnly "2024-12-31" = Some 1735603200000000000 /\
  DaysUntilExp (fst (fst (parseSecretInfo apiKey w))) = 11 /\
  ~ DaysUntilExp (fst (fst (parseSecretInfo apiKey w))) < 0.
Proof.
  intros w.
  assert (Hv : corev1.Annotations apiKey !! AnnotationExpiresAt = Some "2024-12-31")
    by (vm_compute; reflexivity).
  assert (Hp : time_Parse_DateOnly "2024-12-31" = Some 1735603200000000000)
    by (vm_compute; reflexivity).
  destruct (parseSecretInfo_day_count apiKey w _ _ Hv Hp)
    as (_ & _ & _ & Hneg & _ & Hk & _).
  split; [exact Hv|]. split; [exact Hp|]. split.
  - apply (Hk 11). vm_compute. reflexivity.
  - intros H. apply Hneg in H. vm_compute in H. apply H. reflexivity.
Defined.

(** Two objects with the same resource version and different
    annotations: nothing happens. *)
Lemma handleUpdate_same_version_witness :
  let w := worldAt (instant "2024-12-27" 0) (storeOf []) (queueOf []) in
  corev1.ResourceVersion apiKey = corev1.ResourceVersion apiKeyResync /\
  corev1.Annotations apiKey <> corev1.Annotations apiKeyResync /\
  handleUpdate (ObjSecret apiKey) (ObjSecret apiKeyResync) w = (tt, w).
Proof.
  intros w. split; [reflexivity|]. split.
  - intros H. apply (f_equal (fun m => m !! AnnotationWarnBefore)) in H.
    vm_compute in H. discriminate H.
  - apply (handleUpdate_same_version apiKey apiKeyResync w). reflexivity.
Defined.

(** An update that removes the annotations of a tracked secret is
    enqueued; an update between two untracked secrets is not. *)
Lemma handleUpdate_enqueue_iff_witness :
  let w := worldAt (instant "2024-12-27" 0) (storeOf []) (queueOf []) in
  let w' := snd (handleUpdate (ObjSecret apiKey) (ObjSecret apiKeyUntracked) w) in
  let v' := snd (handleUpdate (ObjSecret plain) (ObjSecret apiKeyUntracked) w) in
  corev1.ResourceVersion apiKey <> corev1.ResourceVersion apiKeyUntracked /\
  qcalls w' = [CallAdd "default/api-key"] /\
  pending (workqueue w') = ["default/api-key"] /\
  corev1.ResourceVersion plain <> corev1.ResourceVersion apiKeyUntracked /\
  qcalls v' = [] /\ workqueue v' = workqueue w.
Proof.
  intros w w' v'.
  assert (H1 : corev1.ResourceVersion apiKey <> corev1.ResourceVersion apiKeyUntracked)
    by discriminate.
  assert (H2 : corev1.ResourceVersion plain <> corev1.ResourceVersion apiKeyUntracked)
    by discriminate.
  destruct (handleUpdate_enqueue_iff apiKey apiKeyUntracked w H1) as (Hyes & _ & _).
  destruct (handleUpdate_enqueue_iff plain apiKeyUntracked w H2) as (_ & Hno & _).
  destruct (Hyes ltac:(vm_compute; reflexivity)) as [Y1 Y2].
  destruct (Hno ltac:(vm_compute; reflexivity)) as [N1 N2].
  split; [exact H1|]. split; [exact Y1|]. split.
  - fold w' in Y2. rewrite Y2. vm_compute. reflexivity.
  - split; [exact H2|]. split; [exact N1 | exact N2].
Defined.

(** The two guards of [reconcile] at work, on a cache and a key that a
    secrets informer does not produce.  The cache holds a value that is not
    a secret: the lookup finds it, without an error, and the pass ends with
    [AddRateLimited].  The cache holds a tracked secret under a key with
    two slashes: the pass ends with [Forget] and no classification is
    emitted. *)
Example worker_pass_guards :
  let key := "default/settings" in
  let w := worldAt (instant "2024-12-27" 0)
             (storeOf [(key, ObjOther "*v1.ConfigMap" (Some ("default", "settings")))])
             (queueOf [key]) in
  let key' := "a/b/c" in
  let w' := worldAt (instant "2024-12-27" 0) (storeOf [(key', ObjSecret slashed)])
              (queueOf [key']) in
  store w key = StoreFound (ObjOther "*v1.ConfigMap" (Some ("default", "settings"))) /\
  qcalls (snd (processNextWorkItem w)) =
    [CallGet; CallAddRateLimited key; CallDone key] /\
  store w' key' = StoreFound (ObjSecret slashed) /\
  tracked slashed = true /\
  MetaNamespaceKeyFunc (ObjSecret slashed) = inl key' /\
  qcalls (snd (processNextWorkItem w')) = [CallGet; CallForget key'; CallDone key'] /\
  events (snd (processNextWorkItem w')) = [].
Proof. vm_compute. repeat split. Qed.


(** A pass whose cache lookup fails: [AddRateLimited], then [Done]; one
    failure recorded and one timer armed on the queue of the
    specification. *)
Example fetch_error_pass :
  let key := "default/api-key" in
  let w := worldAt (instant "2024-12-27" 0) brokenStore (queueOf [key]) in
  let w' := snd (processNextWorkItem w) in
  qcalls w' = [CallGet; CallAddRateLimited key; CallDone key] /\
  events w' = [] /\
  failures (workqueue w') !! key = Some 1%nat /\
  timers (workqueue w') = [(key, 5 * Millisecond)] /\
  pending (workqueue w') = [].
Proof. vm_compute. repeat split. Qed.

(** C7 at the value "106752d".  [strconv.Atoi] accepts 106752, and the
    product [106752 * 24 * time.Hour] passes 2^63 - 1 nanoseconds: the lead
    time is a negative duration, neither 106752 days nor the default of
    seven days.  A secret that expires three days later, inside any lead
    time of three days or more, is then reported as valid. *)
Theorem parseDuration_days_overflow :
  strconv_Atoi "106752" = Some 106752 /\
  parseDuration "106752d" = Some (- 9223371273709551616) /\
  time_ParseDuration "2562048h" = None /\
  let w := worldAt (instant "2024-12-28" 0) (storeOf []) (queueOf []) in
  let info := fst (fst (parseSecretInfo apiKeyLongLead w)) in
  WarnBefore info = - 9223371273709551616 /\
  DaysUntilExp info = 3 /\
  map reason (events (snd (emitExpirationEvent apiKeyLongLead info w))) = ["SecretValid"].
Proof. vm_compute. repeat split. Qed.

(** The annotation value "not-a-date". *)
Lemma malformed_date_untracked_witness :
  let key := "default/broken" in
  let w := worldAt (instant "2024-12-27" 0) (storeOf [(key, ObjSecret notADate)])
             (queueOf []) in
  corev1.Annotations notADate !! AnnotationExpiresAt = Some "not-a-date" /\
  isDateShaped "not-a-date" = false /\
  time_Parse_DateOnly "not-a-date" = None /\
  handleAdd (ObjSecret notADate) w = (tt, w) /\
  fst (reconcile key w) = None.
Proof.
  intros key w.
  assert (Hv : corev1.Annotations notADate !! AnnotationExpiresAt = Some "not-a-date")
    by (vm_compute; reflexivity).
  assert (Hp : time_Parse_DateOnly "not-a-date" = None)
    by (apply time_Parse_DateOnly_shape; reflexivity).
  destruct (malformed_date_untracked notADate "not-a-date" w Hv Hp)
    as (_ & _ & Hadd & Hrec & _).
  split; [exact Hv|]. split; [reflexivity|]. split; [exact Hp|]. split; [exact Hadd|].
  apply (Hrec key). vm_compute. reflexivity.
Defined.

(** A secret before and after a rotation of its payload. *)
Lemma parseSecretInfo_metadata_only_witness :
  let w := worldAt (instant "2024-12-27" 0) (storeOf []) (queueOf []) in
  corev1.Data apiKey <> corev1.Data apiKeyRotated /\
  corev1.SecretType apiKey <> corev1.SecretType apiKeyRotated /\
  parseSecretInfo apiKey w = parseSecretInfo apiKeyRotated w.
Proof.
  intros w. split; [|split].
  - intros H. apply (f_equal (fun m => m !! "token")) in H. vm_compute in H. discriminate H.
  - discriminate.
  - apply (parseSecretInfo_metadata_only apiKey apiKeyRotated w); reflexivity.
Defined.

End ControllerFacts.
